(** * The PageSpy network bridge: page-side interceptor and privileged relay

    A shallow embedding of [src/content/bridge.ts] (the in-page interception
    layer) and [src/sw/index.ts] (the service worker that performs the real
    network I/O), followed by the properties of the bridging protocol.

    JavaScript objects that are mutated in place and shared (the proxied
    sockets, the promises behind pending fetches) live in explicit stores;
    [Map]s that are only looked up are [gmap]s, the relay's socket [Map],
    which is iterated, keeps its insertion order; code that can [throw]
    runs in the exception monad [Exc]. *)

From Stdlib Require Import ZArith Strings.Byte Strings.Ascii.
From stdpp Require Import base option list gmap strings.

Open Scope Z_scope.
Open Scope string_scope.
Open Scope list_scope.

(** ** JavaScript preliminaries *)

(** A computation that either returns or throws an [Error] with a message. *)
Inductive Exc (A : Type) : Type :=
| Ret (a : A)
| Throw (message : string).
Arguments Ret {A} a.
Arguments Throw {A} message.

#[global] Instance Exc_ret : MRet Exc := fun _ a => Ret a.
#[global] Instance Exc_bind : MBind Exc := fun _ _ k c =>
  match c with
  | Ret a => k a
  | Throw e => Throw e
  end.

#[global] Instance Exc_fmap : FMap Exc := fun _ _ f c =>
  match c with
  | Ret a => Ret (f a)
  | Throw e => Throw e
  end.

(** [try { c } catch (e) { h(e) }] *)
Definition try_catch {A} (c : Exc A) (h : string → Exc A) : Exc A :=
  match c with
  | Ret a => Ret a
  | Throw e => h e
  end.

Definition returns {A} (c : Exc A) : Prop := ∃ a, c = Ret a.
Definition throws {A} (c : Exc A) : Prop := ∃ e, c = Throw e.

(** Truthiness of a value that is a string or [undefined]. *)
Definition truthy_string (o : option string) : bool :=
  match o with
  | Some s => negb (String.eqb s "")
  | None => false
  end.

(** Truthiness of a value that is a boolean or [undefined]. *)
Definition truthy_bool (o : option bool) : bool := default false o.

(** [a || b] on such strings. *)
Definition or_else (a b : option string) : option string :=
  if truthy_string a then a else b.

(** ** Binary data *)

Abbreviation bytes := (list byte).

(** A typed-array view ([Uint8Array] and friends) over an [ArrayBuffer]. *)
Record TypedArray := {
  buffer : bytes;
  byteOffset : nat;
  byteLength : nat
}.

(** The bytes a view denotes. *)
Definition view_bytes (v : TypedArray) : bytes :=
  take (byteLength v) (drop (byteOffset v) (buffer v)).

(** [new Uint8Array(buffer)]: a view over the whole of [buffer]. *)
Definition Uint8Array_of (b : bytes) : TypedArray :=
  {| buffer := b; byteOffset := 0; byteLength := length b |}.

(** [Blob]: content and [type], the latter as the constructor keeps it. *)
Record Blob := {
  blob_bytes : bytes;
  blob_type : string
}.

(** [File]: a [Blob] with a [name]. *)
Record File := {
  file_name : string;
  file_type : string;
  file_bytes : bytes
}.

(** [new Blob([view], { type })] *)
Definition Blob_new (part : TypedArray) (type : string) : Blob :=
  {| blob_bytes := view_bytes part; blob_type := type |}.

(** [new File([view], name, { type })] *)
Definition File_new (part : TypedArray) (name type : string) : File :=
  {| file_name := name; file_type := type; file_bytes := view_bytes part |}.

(** [blob.arrayBuffer()], once awaited. *)
Definition Blob_arrayBuffer (b : Blob) : bytes := blob_bytes b.
Definition File_arrayBuffer (f : File) : bytes := file_bytes f.

(** ** The platform

    What the bridge consumes from the browser and from the rest of the
    extension: the JSON and URL parsers, which throw on bad input, the
    serialisation of [URLSearchParams], the domain-rule evaluator
    [matchCurrentTab] of [src/utils], and the key of the cached
    configuration of [src/content/constant]. *)

(** The cached configuration as [JSON.parse] gives it back: fields have the
    types [ExtensionConfig] declares, any of them may be missing. *)
Record ExtensionConfig := {
  domainRules : option string;
  enableSSL : option bool;
  serviceAddress : option string
}.

(** A parsed JSON document, as far as [readCachedConfig] tells them apart. *)
Inductive JSON :=
| JSON_null
| JSON_primitive (is_truthy : bool)   (* a boolean, number or string *)
| JSON_object (config : ExtensionConfig).

(** The components of a parsed [URL] the bridge reads. *)
Record URL := {
  host : string;
  pathname : string;
  href : string
}.

Class Platform := {
  JSON_parse : string → Exc JSON;
  URL_parse : string → option string → Exc URL;   (* [new URL(url, base)] *)
  URLSearchParams_toString : list (string * string) → string;
  matchCurrentTab : string → string → bool;
  PAGE_SPY_EXTENSION_CONFIG_KEY : string
}.

(** The constructors the page builds a response with, as far as they can
    refuse their arguments: [new Headers(list)] throws on a name or a value
    that is no header, and [new Response] on a status text that is no reason
    phrase. *)
Class PageAPI := {
  Headers_from : list (string * string) → Exc (list (string * string));
  valid_statusText : string → bool
}.

(** ** The wire format (both files declare it) *)

Inductive FormDataEntryPayload :=
| EntryText (key value : string)
| EntryFile (key name : string) (mime : option string) (buffer : TypedArray).

Inductive SerializedBody :=
| SNone
| SText (value : string)
| SArrayBuffer (buffer : TypedArray)
| SBlob (buffer : TypedArray) (mime : option string)
| SFormData (entries : list FormDataEntryPayload).

Abbreviation header_list := (list (string * string)).

Record SerializedInit := {
  init_headers : option header_list;
  init_method : option string;
  init_credentials : option string;
  init_body : option SerializedBody
}.

(** What a socket sends and receives. *)
Inductive SocketData :=
| DataNone                          (* [undefined] or [null] *)
| DataString (s : string)
| DataArrayBuffer (b : bytes)
| DataUint8Array (v : TypedArray)
| DataBlob (b : Blob).

(** The message the relay posts on the port for a socket. *)
Record WsEventPayload := {
  evt_wsId : option string;
  evt_event : option string;
  evt_data : SocketData;
  evt_code : option Z;
  evt_reason : option string;
  evt_wasClean : option bool;
  evt_error : option string
}.

(** ** Native request bodies *)

(** A value of a [FormData] entry: a string or a [File]. *)
Inductive FormDataEntryValue :=
| FormString (s : string)
| FormFile (f : File).

(** [BodyInit]. A [ReadableStream] stands for the body kinds the codec does
    not know. *)
Inductive BodyInit :=
| BodyString (s : string)
| BodyURLSearchParams (params : list (string * string))
| BodyFormData (entries : list (string * FormDataEntryValue))
| BodyBlob (b : Blob)
| BodyArrayBuffer (b : bytes)
| BodyView (v : TypedArray)
| BodyStream.

Record RequestInit := {
  req_headers : option header_list;
  req_method : option string;
  req_credentials : option string;
  req_body : option BodyInit
}.

(** ** [src/content/bridge.ts] *)

Module Bridge.

Definition BRIDGE_SCOPE := "pagespy-bridge".
Definition BRIDGE_FETCH := "pagespy:fetch".
Definition WS_OPEN := "pagespy:ws-open".
Definition WS_SEND := "pagespy:ws-send".
Definition WS_CLOSE := "pagespy:ws-close".
Definition BRIDGE_FETCH_RESPONSE := BRIDGE_FETCH +:+ ":response".
Definition WS_EVENT := "pagespy:ws-event".

(** [WebSocket.CONNECTING] ... [WebSocket.CLOSED] *)
Definition CONNECTING : Z := 0.
Definition OPEN : Z := 1.
Definition CLOSING : Z := 2.
Definition CLOSED : Z := 3.

Record FetchResponsePayload := {
  ok : option bool;
  status : Z;
  statusText : string;
  headers : header_list;
  body : string;
  error : option string
}.

(** The [payload] property of a message on the page's bus. *)
Inductive Payload :=
| PayloadUndefined
| PayloadFetch (p : FetchResponsePayload)
| PayloadEvent (p : WsEventPayload).

(** [payload?.ok], [payload?.error], [payload?.wsId], [payload?.event]:
    a property the object does not have reads as [undefined]. *)
Definition payload_ok (p : Payload) : option bool :=
  match p with PayloadFetch p => ok p | _ => None end.
Definition payload_error (p : Payload) : option string :=
  match p with
  | PayloadFetch p => error p
  | PayloadEvent p => evt_error p
  | PayloadUndefined => None
  end.
Definition payload_wsId (p : Payload) : option string :=
  match p with PayloadEvent p => evt_wsId p | _ => None end.
Definition payload_event (p : Payload) : option string :=
  match p with PayloadEvent p => evt_event p | _ => None end.
Definition payload_data (p : Payload) : SocketData :=
  match p with PayloadEvent p => evt_data p | _ => DataNone end.
Definition payload_code (p : Payload) : option Z :=
  match p with PayloadEvent p => evt_code p | _ => None end.
Definition payload_reason (p : Payload) : option string :=
  match p with PayloadEvent p => evt_reason p | _ => None end.
Definition payload_wasClean (p : Payload) : option bool :=
  match p with PayloadEvent p => evt_wasClean p | _ => None end.

(** [event.data] of a [message] event on the window. *)
Record BridgeData := {
  msg_scope : option string;
  msg_type : option string;
  msg_requestId : option string;
  msg_payload : Payload;
  msg_error : option string
}.

(** What the page posts with [window.postMessage], always under
    [BRIDGE_SCOPE]. *)
Inductive Posted :=
| PostFetch (requestId url : string) (init : SerializedInit)
| PostWsOpen (wsId url : string) (protocols : list string)
| PostWsSend (wsId : string) (data : SocketData)
| PostWsClose (wsId : string) (code : option Z) (reason : option string).

Definition posted_type (m : Posted) : string :=
  match m with
  | PostFetch _ _ _ => BRIDGE_FETCH
  | PostWsOpen _ _ _ => WS_OPEN
  | PostWsSend _ _ => WS_SEND
  | PostWsClose _ _ _ => WS_CLOSE
  end.

(** The promise behind a pending fetch. *)
Inductive PromiseState :=
| Pending
| Resolved (data : Payload)
| Rejected (message : string).

(** Events synthesised for the page. *)
Inductive SocketEvent :=
| EventOpen
| EventMessage (data : SocketData)
| EventError
| EventClose (code : option Z) (reason : option string) (wasClean : bool).

(** What page code gets to see of a socket: a call of the [on*] handler, when
    one is set, and the event dispatched to the subscribed listeners.
    Handlers and listeners are page code; they are recorded, not run. *)
Inductive Observation :=
| HandlerCalled (handler : nat) (wsId : string) (ev : SocketEvent)
| EventDispatched (wsId : string) (ev : SocketEvent).

Record BridgeWebSocket := {
  readyState : Z;
  url : string;
  protocol : string;
  binaryType : string;
  wsId : string;
  onopen : option nat;
  onmessage : option nat;
  onerror : option nat;
  onclose : option nat
}.

Definition set_readyState (rs : Z) (this : BridgeWebSocket) : BridgeWebSocket :=
  {| readyState := rs; url := url this; protocol := protocol this;
     binaryType := binaryType this; wsId := wsId this;
     onopen := onopen this; onmessage := onmessage this;
     onerror := onerror this; onclose := onclose this |}.

(** The page: the two module-level tables, the objects they refer to, the
    session storage and location the eligibility check reads, and what has
    been posted and observed so far. *)
Record PageState := {
  pendingFetches : gmap string nat;      (* request id to its promise *)
  promises : list PromiseState;
  socketMap : gmap string nat;           (* socket id to its object *)
  objects : list BridgeWebSocket;
  sessionStorage : gmap string string;
  location_origin : string;
  location_href : string;
  posted : list Posted;
  observed : list Observation
}.

Definition with_fetches (f : gmap string nat) (p : list PromiseState) (st : PageState) : PageState :=
  {| pendingFetches := f; promises := p;
     socketMap := socketMap st; objects := objects st;
     sessionStorage := sessionStorage st;
     location_origin := location_origin st; location_href := location_href st;
     posted := posted st; observed := observed st |}.

Definition with_sockets (m : gmap string nat) (o : list BridgeWebSocket)
    (out : list Posted) (obs : list Observation) (st : PageState) : PageState :=
  {| pendingFetches := pendingFetches st; promises := promises st;
     socketMap := m; objects := o;
     sessionStorage := sessionStorage st;
     location_origin := location_origin st; location_href := location_href st;
     posted := out; observed := obs |}.

Definition with_posted (out : list Posted) (st : PageState) : PageState :=
  with_sockets (socketMap st) (objects st) out (observed st) st.

Section Interceptor.
Context `{Platform}.

(** *** Eligibility *)

Definition readCachedConfig (storage : gmap string string) : Exc (option ExtensionConfig) :=
  let cache := storage !! PAGE_SPY_EXTENSION_CONFIG_KEY in
  if negb (truthy_string cache) then Ret None
  else
    try_catch
      (parsed ← JSON_parse (default "" cache);
       match parsed with
       | JSON_object config => Ret (Some config)
       | JSON_null | JSON_primitive _ => Ret None
       end)
      (λ _, Ret None).

Definition isEnabledForCurrentPage (config : option ExtensionConfig) (origin : string) : bool :=
  let rules := config ≫= domainRules in
  if negb (truthy_string rules) then false
  else matchCurrentTab (default "" rules) origin.

(** [pathname.endsWith('/')] *)
Fixpoint endsWith_slash (s : string) : bool :=
  match s with
  | EmptyString => false
  | String c EmptyString => Ascii.eqb c "/"%char
  | String _ rest => endsWith_slash rest
  end.

(** [pathname.slice(0, -1)] *)
Definition slice_0_minus1 (s : string) : string :=
  String.substring 0 (String.length s - 1)%nat s.

Definition getTargetHost (config : option ExtensionConfig) : Exc (option string) :=
  let address := config ≫= serviceAddress in
  if negb (truthy_string address) then Ret None
  else
    let scheme :=
      if truthy_bool (config ≫= enableSSL) then "https://" else "http://" in
    try_catch
      (u ← URL_parse (scheme +:+ default "" address) None;
       let address :=
         if endsWith_slash (pathname u)
         then host u +:+ slice_0_minus1 (pathname u)
         else host u +:+ pathname u in
       let clientOrigin := scheme +:+ address in
       origin ← URL_parse clientOrigin None;
       Ret (Some (host origin)))
      (λ _, Ret None).

Definition shouldProxyUrl (targetUrl : URL) (st : PageState) : Exc bool :=
  config ← readCachedConfig (sessionStorage st);
  if negb (isEnabledForCurrentPage config (location_origin st)) then Ret false
  else
    target ← getTargetHost config;
    if negb (truthy_string target) then Ret false
    else Ret (String.eqb (host targetUrl) (default "" target)).

(** *** The serialising half of the codec

    [serializeBody] is [async] only to read blobs and files into memory;
    the reads are taken as done. *)

(** One turn of the loop over [body.entries()]. *)
Definition serializeEntry (e : string * FormDataEntryValue) : FormDataEntryPayload :=
  match e with
  | (key, FormString value) => EntryText key value
  | (key, FormFile value) =>
      let buffer := Uint8Array_of (File_arrayBuffer value) in
      EntryFile key (file_name value) (Some (file_type value)) buffer
  end.

Definition serializeBody (body : option BodyInit) : SerializedBody :=
  match body with
  | None => SNone
  | Some (BodyString s) =>
      if String.eqb s "" then SNone      (* [!body] holds of the empty string *)
      else SText s
  | Some (BodyURLSearchParams p) => SText (URLSearchParams_toString p)
  | Some (BodyFormData entries) => SFormData (serializeEntry <$> entries)
  | Some (BodyBlob b) =>
      let buffer := Uint8Array_of (Blob_arrayBuffer b) in
      SBlob buffer (Some (blob_type b))
  | Some (BodyArrayBuffer b) => SArrayBuffer (Uint8Array_of b)
  | Some (BodyView v) =>
      let buffer := buffer v in
      SArrayBuffer (Uint8Array_of buffer)
  | Some BodyStream => SNone
  end.

Definition serializeInit (init : option RequestInit) : SerializedInit :=
  match init with
  | None =>
      {| init_headers := None; init_method := None;
         init_credentials := None; init_body := None |}
  | Some init =>
      {| init_headers := req_headers init;
         init_method := req_method init;
         init_credentials := req_credentials init;
         init_body := Some (serializeBody (req_body init)) |}
  end.

(** *** [class BridgeWebSocket]

    A method takes the object as [this] and gives it back updated. *)

(** [protocols?: string | string[]] *)
Inductive Protocols :=
| ProtocolsUndefined
| ProtocolsString (p : string)
| ProtocolsArray (ps : list string).

Definition protocolList (protocols : Protocols) : list string :=
  match protocols with
  | ProtocolsArray ps => ps
  | ProtocolsString p => if truthy_string (Some p) then [p] else []
  | ProtocolsUndefined => []
  end.

(** The constructor: [id] is what [genId('ws')] returned, [ref] is where the
    new object lives. *)
Definition BridgeWebSocket_new (url : string) (protocols : Protocols) (id : string)
    (ref : nat) (map : gmap string nat) (out : list Posted)
  : BridgeWebSocket * gmap string nat * list Posted :=
  let this :=
    {| readyState := CONNECTING; url := url; protocol := ""; binaryType := "blob";
       wsId := id; onopen := None; onmessage := None; onerror := None;
       onclose := None |} in
  (this, <[id := ref]> map, out ++ [PostWsOpen id url (protocolList protocols)]).

Definition send (this : BridgeWebSocket) (data : SocketData) (out : list Posted)
  : Exc (list Posted) :=
  if negb (Z.eqb (readyState this) OPEN) then Throw "WebSocket is not open"
  else Ret (out ++ [PostWsSend (wsId this) data]).

Definition close (this : BridgeWebSocket) (code : option Z) (reason : option string)
    (out : list Posted) : BridgeWebSocket * list Posted :=
  if Z.eqb (readyState this) CLOSED then (this, out)
  else
    (set_readyState CLOSING this,
     out ++ [PostWsClose (wsId this) code reason]).

Definition event_type (ev : SocketEvent) : string :=
  match ev with
  | EventOpen => "open"
  | EventMessage _ => "message"
  | EventError => "error"
  | EventClose _ _ _ => "close"
  end.

(** [(this as any)[`on${type}`]] *)
Definition handler_of (this : BridgeWebSocket) (type : string) : option nat :=
  if String.eqb type "open" then onopen this
  else if String.eqb type "message" then onmessage this
  else if String.eqb type "error" then onerror this
  else if String.eqb type "close" then onclose this
  else None.

Definition dispatchSocketEvent (this : BridgeWebSocket) (type : string)
    (event : SocketEvent) (obs : list Observation) : list Observation :=
  let obs :=
    match handler_of this type with
    | Some handler => obs ++ [HandlerCalled handler (wsId this) event]
    | None => obs
    end in
  obs ++ [EventDispatched (wsId this) event].

Definition handleRemoteEvent (this : BridgeWebSocket) (payload : Payload)
    (map : gmap string nat) (obs : list Observation)
  : BridgeWebSocket * gmap string nat * list Observation :=
  match payload_event payload with
  | Some kind =>
      if String.eqb kind "open" then
        let this := set_readyState OPEN this in
        (this, map, dispatchSocketEvent this "open" EventOpen obs)
      else if String.eqb kind "message" then
        let data :=
          match payload_data payload with
          | DataUint8Array v =>
              if String.eqb (binaryType this) "arraybuffer"
              then DataArrayBuffer (buffer v)
              else DataUint8Array v
          | data => data
          end in
        (this, map, dispatchSocketEvent this "message" (EventMessage data) obs)
      else if String.eqb kind "error" then
        (this, map, dispatchSocketEvent this "error" EventError obs)
      else if String.eqb kind "close" then
        let this := set_readyState CLOSED this in
        let map := delete (wsId this) map in
        (this, map,
         dispatchSocketEvent this "close"
           (EventClose (payload_code payload) (payload_reason payload)
              (truthy_bool (payload_wasClean payload)))
           obs)
      else (this, map, obs)
  | None => (this, map, obs)
  end.

(** Page code calling [send] and [close] on the socket object at [ref]. *)
Definition call_send (ref : nat) (data : SocketData) (st : PageState) : Exc PageState :=
  match objects st !! ref with
  | Some this => out ← send this data (posted st); Ret (with_posted out st)
  | None => Ret st
  end.

Definition call_close (ref : nat) (code : option Z) (reason : option string)
    (st : PageState) : PageState :=
  match objects st !! ref with
  | Some this =>
      let '(this, out) := close this code reason (posted st) in
      with_sockets (socketMap st) (<[ref := this]> (objects st)) out (observed st) st
  | None => st
  end.

(** *** [handleBridgeMessage] *)

(** [value === s] for a property that is a string or [undefined]. *)
Definition is_string (value : option string) (s : string) : bool :=
  match value with
  | Some v => String.eqb v s
  | None => false
  end.

(** [resolve] and [reject] of a promise: only a pending promise settles. *)
Definition settle (promise : nat) (outcome : PromiseState) (ps : list PromiseState)
  : list PromiseState :=
  match ps !! promise with
  | Some Pending => <[promise := outcome]> ps
  | _ => ps
  end.

(** [data.error || (!data.payload?.ok && data.payload?.error)] *)
Definition errorMsg (data : BridgeData) : option string :=
  or_else (msg_error data)
    (if negb (truthy_bool (payload_ok (msg_payload data)))
     then payload_error (msg_payload data)
     else None).

(** The second [if] of the handler. *)
Definition handleSocketEvent (data : BridgeData) (st : PageState) : PageState :=
  if is_string (msg_type data) WS_EVENT then
    let payload := msg_payload data in
    match payload_wsId payload ≫= (socketMap st !!.) with
    | Some ref =>
        match objects st !! ref with
        | Some ws =>
            let '(ws, map, obs) :=
              handleRemoteEvent ws payload (socketMap st) (observed st) in
            with_sockets map (<[ref := ws]> (objects st)) (posted st) obs st
        | None => st
        end
    | None => st
    end
  else st.

Definition handleBridgeMessage (event_data : option BridgeData) (st : PageState) : PageState :=
  match event_data with
  | None => st
  | Some data =>
      if negb (is_string (msg_scope data) BRIDGE_SCOPE) then st
      else if is_string (msg_type data) BRIDGE_FETCH_RESPONSE then
        let pending := msg_requestId data ≫= (pendingFetches st !!.) in
        let fetches :=
          match msg_requestId data with
          | Some id => delete id (pendingFetches st)
          | None => pendingFetches st
          end in
        match pending with
        | None => with_fetches fetches (promises st) st
        | Some promise =>
            let errorMsg := errorMsg data in
            if truthy_string errorMsg then
              with_fetches fetches
                (settle promise (Rejected (default "" errorMsg)) (promises st)) st
            else
              handleSocketEvent data
                (with_fetches fetches
                   (settle promise (Resolved (msg_payload data)) (promises st)) st)
        end
      else handleSocketEvent data st
  end.

(** *** [createProxiedFetch] *)

(** [input: RequestInfo | URL] *)
Inductive RequestInput :=
| InputString (s : string)
| InputURL (u : URL)
| InputRequest (url : string).

Definition urlStr (input : RequestInput) : string :=
  match input with
  | InputString s => s
  | InputURL u => href u
  | InputRequest url => url
  end.

Inductive FetchCall :=
| NativeFetch (input : RequestInput) (init : option RequestInit)
| ProxiedFetch (promise : nat).

(** The returned function up to [await responsePromise]; [requestId] is what
    [genId('fetch')] returned. *)
Definition createProxiedFetch (input : RequestInput) (init : option RequestInit)
    (requestId : string) (st : PageState) : Exc (FetchCall * PageState) :=
  targetUrl ← URL_parse (urlStr input) (Some (location_href st));
  proxy ← shouldProxyUrl targetUrl st;
  if negb proxy then Ret (NativeFetch input init, st)
  else
    let serializedInit := serializeInit init in
    let promise := length (promises st) in
    let st :=
      with_fetches (<[requestId := promise]> (pendingFetches st))
        (promises st ++ [Pending]) st in
    let st :=
      with_posted (posted st ++ [PostFetch requestId (href targetUrl) serializedInit]) st in
    Ret (ProxiedFetch promise, st).

Record Response := {
  response_body : string;
  response_status : Z;
  response_statusText : string;
  response_headers : header_list
}.

(** The statuses of a response that cannot have a body. *)
Definition null_body_status (status : Z) : bool :=
  Z.eqb status 101 || Z.eqb status 103 || Z.eqb status 204
  || Z.eqb status 205 || Z.eqb status 304.

(** The conversion of a number to the [unsigned short] of a status. *)
Definition unsigned_short (n : Z) : Z := n mod 65536.

(** [new Response(body, { status, statusText, headers })] with a string for
    the body: the status is converted to an [unsigned short]; a [RangeError]
    for a status outside 200 to 599, a [TypeError] for a status text that is
    no reason phrase and for a status that allows no body, the body being a
    string and so never [null]. *)
Definition Response_new `{Api : PageAPI} (body : string) (status : Z) (statusText : string)
    (headers : header_list) : Exc Response :=
  let status := unsigned_short status in
  if negb (Z.leb 200 status && Z.leb status 599) then
    Throw "RangeError: the status is outside the range 200 to 599"
  else if negb (valid_statusText statusText) then
    Throw "TypeError: invalid statusText"
  else if null_body_status status then
    Throw "TypeError: response with null body status cannot have body"
  else
    Ret {| response_body := body; response_status := status;
           response_statusText := statusText; response_headers := headers |}.

(** The rest of the function, once [responsePromise] has settled. A payload
    without the fields of a fetch response gives the defaults of [Response]. *)
Definition createProxiedFetch_resume `{Api : PageAPI} (settled : PromiseState)
  : option (Exc Response) :=
  match settled with
  | Pending => None
  | Rejected message => Some (Throw message)
  | Resolved PayloadUndefined => Some (Throw "Request failed")
  | Resolved (PayloadFetch payload) =>
      match ok payload with
      | Some false =>
          Some (Throw (default "" (or_else (error payload) (Some "Request failed"))))
      | _ =>
          Some (headers ← Headers_from (headers payload);
                Response_new (body payload) (status payload) (statusText payload)
                  headers)
      end
  | Resolved (PayloadEvent _) =>
      Some (Ret {| response_body := ""; response_status := 200;
                   response_statusText := ""; response_headers := [] |})
  end.

(** *** [createProxiedWebSocket] *)

Inductive SocketCall :=
| NativeSocket (url : string) (protocols : Protocols)
| ProxiedSocket (ref : nat).

(** The factory; [id] is what [genId('ws')] returned. *)
Definition createProxiedWebSocket (url : string) (protocols : Protocols)
    (id : string) (st : PageState) : Exc (SocketCall * PageState) :=
  targetUrl ← URL_parse url (Some (location_href st));
  proxy ← shouldProxyUrl targetUrl st;
  if negb proxy then Ret (NativeSocket url protocols, st)
  else
    let ref := length (objects st) in
    let '(ws, map, out) :=
      BridgeWebSocket_new (href targetUrl) protocols id ref (socketMap st) (posted st) in
    Ret (ProxiedSocket ref,
         with_sockets map (objects st ++ [ws]) out (observed st) st).

End Interceptor.
End Bridge.

(** ** [src/sw/index.ts] *)

Module Relay.

Definition BRIDGE_MESSAGE_TYPE := "pagespy:fetch".
Definition WS_PORT_NAME := "pagespy-ws".
Definition WS_OPEN := "pagespy:ws-open".
Definition WS_SEND := "pagespy:ws-send".
Definition WS_CLOSE := "pagespy:ws-close".

(** [WebSocket.OPEN] *)
Definition OPEN : Z := 1.

(** The response of the real [fetch]; reading its text may fail. *)
Record NativeResponse := {
  res_status : Z;
  res_statusText : string;
  res_headers : header_list;
  res_text : Exc string
}.

(** A real socket, as far as the relay reads it. *)
Record RealSocket := {
  real_url : string;
  real_protocols : option (list string);
  real_readyState : Z
}.

(** The [Map] of one port: socket ids (whatever [msg.wsId] was, [undefined]
    included) to real sockets, in insertion order. *)
Abbreviation SocketTable := (list (option string * RealSocket)).

(** The network the relay drives: each operation returns or throws. *)
Class Network := {
  Headers_new : header_list → Exc header_list;
  fetch : string → RequestInit → Exc NativeResponse;
  WebSocket_new : string → option (list string) → Exc RealSocket;
  WebSocket_send : RealSocket → SocketData → Exc RealSocket;
  WebSocket_close : RealSocket → option Z → option string → Exc RealSocket
}.

(** *** The deserialising half of the codec *)

(** [mime || ''] *)
Definition mime_or_empty (mime : option string) : string :=
  default "" (or_else mime (Some "")).

(** One turn of [body.entries.forEach]: the field appended to the form. *)
Definition appendEntry (entry : FormDataEntryPayload) : string * FormDataEntryValue :=
  match entry with
  | EntryText key value => (key, FormString value)
  | EntryFile key name mime buffer =>
      let file := File_new buffer name (mime_or_empty mime) in
      (key, FormFile file)
  end.

Definition deserializeBody (body : SerializedBody) : option BodyInit :=
  match body with
  | SNone => None
  | SText value => Some (BodyString value)
  | SArrayBuffer buffer => Some (BodyView buffer)
  | SBlob buffer mime => Some (BodyBlob (Blob_new buffer (mime_or_empty mime)))
  | SFormData entries => Some (BodyFormData (appendEntry <$> entries))
  end.

(** *** Fetch handling *)

Record FetchRequest := {
  fetch_url : string;
  fetch_init : option SerializedInit
}.

(** A message on [chrome.runtime.onMessage]. *)
Record RuntimeMessage := {
  message_type : option string;
  message_payload : option FetchRequest
}.

Record FetchResult := {
  status : Z;
  statusText : string;
  headers : header_list;
  body : string
}.

(** What [sendResponse] is called with: [{ ok: true, ...res }] or
    [{ ok: false, error }]. *)
Inductive Reply :=
| ReplyOk (res : FetchResult)
| ReplyError (error : string).

Section Handlers.
Context `{Network}.

(** An [async] function: a [throw] or a rejected [await] rejects its promise,
    which is the [Throw] here. *)
Definition handleProxiedFetch (payload : option FetchRequest) : Exc FetchResult :=
  match payload with
  | None => Throw "Cannot destructure property 'url' of 'payload'"
  | Some payload =>
      let url := fetch_url payload in
      let init := fetch_init payload in
      hs ←
        match init ≫= init_headers with
        | Some hs => Some <$> Headers_new hs
        | None => Ret None
        end;
      let reqInit :=
        {| req_headers := hs;
           req_method := init ≫= init_method;
           req_credentials := init ≫= init_credentials;
           req_body := (init ≫= init_body) ≫= deserializeBody |} in
      res ← fetch url reqInit;
      let headers := res_headers res in
      body ← res_text res;
      Ret {| status := res_status res;
             statusText := res_statusText res;
             headers := headers;
             body := body |}
  end.

(** The [chrome.runtime.onMessage] listener: the calls of [sendResponse] it
    leads to, in order. *)
Definition onMessage (message : option RuntimeMessage) : list Reply :=
  match message with
  | None => []
  | Some message =>
      if negb (Bridge.is_string (message_type message) BRIDGE_MESSAGE_TYPE) then []
      else
        match handleProxiedFetch (message_payload message) with
        | Ret res => [ReplyOk res]
        | Throw err => [ReplyError err]
        end
  end.

(** *** WebSocket handling *)


Fixpoint table_get (k : option string) (t : SocketTable) : option RealSocket :=
  match t with
  | [] => None
  | (k', ws) :: t => if decide (k = k') then Some ws else table_get k t
  end.

Fixpoint table_set (k : option string) (ws : RealSocket) (t : SocketTable) : SocketTable :=
  match t with
  | [] => [(k, ws)]
  | (k', ws') :: t =>
      if decide (k = k') then (k, ws) :: t else (k', ws') :: table_set k ws t
  end.

Fixpoint table_delete (k : option string) (t : SocketTable) : SocketTable :=
  match t with
  | [] => []
  | (k', ws) :: t =>
      if decide (k = k') then table_delete k t else (k', ws) :: table_delete k t
  end.

(** A message of the page on the port. *)
Record PortMessage := {
  pm_type : option string;
  pm_wsId : option string;
  pm_url : string;
  pm_protocols : option (list string);
  pm_data : SocketData;
  pm_code : option Z;
  pm_reason : option string
}.

(** A call of [close] on a real socket, and whether it threw. *)
Record CloseCall := {
  close_socket : RealSocket;
  close_code : option Z;
  close_reason : option string;
  close_threw : bool
}.

(** One connected port: its socket table, what it has posted to the page,
    the [close] calls made on real sockets and the console warnings. *)
Record PortState := {
  sockets : SocketTable;
  port_posted : list WsEventPayload;
  closeCalls : list CloseCall;
  warnings : list string
}.

Definition with_table (t : SocketTable) (st : PortState) : PortState :=
  {| sockets := t; port_posted := port_posted st;
     closeCalls := closeCalls st; warnings := warnings st |}.

(** [port.postMessage({ wsId, event, ... })] *)
Definition postMessage (m : WsEventPayload) (st : PortState) : PortState :=
  {| sockets := sockets st; port_posted := port_posted st ++ [m];
     closeCalls := closeCalls st; warnings := warnings st |}.

Definition console_warn (w : string) (st : PortState) : PortState :=
  {| sockets := sockets st; port_posted := port_posted st;
     closeCalls := closeCalls st; warnings := warnings st ++ [w] |}.

Definition event_message (wsId : option string) (event : string) : WsEventPayload :=
  {| evt_wsId := wsId; evt_event := Some event; evt_data := DataNone;
     evt_code := None; evt_reason := None; evt_wasClean := None;
     evt_error := None |}.

Definition error_message (wsId : option string) (error : string) : WsEventPayload :=
  {| evt_wsId := wsId; evt_event := Some "error"; evt_data := DataNone;
     evt_code := None; evt_reason := None; evt_wasClean := None;
     evt_error := Some error |}.

(** [error?.message || fallback] *)
Definition message_or (message fallback : string) : string :=
  default "" (or_else (Some message) (Some fallback)).

(** [ws.close(code, reason)] on the socket stored under [k], if any: the
    call is recorded, and the object in the table is the one the call
    leaves behind. [None] when it returned, the message when it threw. *)
Definition close_real (k : option string) (ws : RealSocket) (code : option Z)
    (reason : option string) (st : PortState) : PortState * option string :=
  let record threw :=
    {| close_socket := ws; close_code := code; close_reason := reason;
       close_threw := threw |} in
  match WebSocket_close ws code reason with
  | Ret ws' =>
      ({| sockets := (λ e, if decide (e.1 = k) then (e.1, ws') else e) <$> sockets st;
          port_posted := port_posted st;
          closeCalls := closeCalls st ++ [record false];
          warnings := warnings st |}, None)
  | Throw e =>
      ({| sockets := sockets st; port_posted := port_posted st;
          closeCalls := closeCalls st ++ [record true];
          warnings := warnings st |}, Some e)
  end.

Definition cleanupSocket (wsId : option string) (st : PortState) : PortState :=
  match table_get wsId (sockets st) with
  | None => st
  | Some ws =>
      let st :=
        match close_real wsId ws None None st with
        | (st, None) => st
        | (st, Some e) => console_warn "[PageSpy Extension] Close WS failed" st
        end in
      with_table (table_delete wsId (sockets st)) st
  end.

(** What the callbacks wired on a real socket do when the socket fires. *)
Inductive NativeEvent :=
| NativeOpen
| NativeMessage (data : SocketData)
| NativeError (message : option string)
| NativeClose (code : Z) (reason : string) (wasClean : bool).

Definition socket_callback (wsId : option string) (evt : NativeEvent) (st : PortState)
  : PortState :=
  match evt with
  | NativeOpen => postMessage (event_message wsId "open") st
  | NativeMessage d =>
      let data :=
        match d with
        | DataString s => DataString s
        | DataArrayBuffer b => DataUint8Array (Uint8Array_of b)
        | _ => DataNone
        end in
      postMessage
        {| evt_wsId := wsId; evt_event := Some "message"; evt_data := data;
           evt_code := None; evt_reason := None; evt_wasClean := None;
           evt_error := None |} st
  | NativeError message =>
      postMessage
        (error_message wsId (default "" (or_else message (Some "WebSocket error")))) st
  | NativeClose code reason wasClean =>
      cleanupSocket wsId
        (postMessage
           {| evt_wsId := wsId; evt_event := Some "close"; evt_data := DataNone;
              evt_code := Some code; evt_reason := Some reason;
              evt_wasClean := Some wasClean; evt_error := None |} st)
  end.

(** The [port.onMessage] listener. *)
Definition port_onMessage (msg : option PortMessage) (st : PortState) : PortState :=
  match msg with
  | None => st
  | Some msg =>
      if negb (truthy_string (pm_type msg)) then st
      else
        let wsId := pm_wsId msg in
        if Bridge.is_string (pm_type msg) WS_OPEN then
          match WebSocket_new (pm_url msg) (pm_protocols msg) with
          | Ret ws => with_table (table_set wsId ws (sockets st)) st
          | Throw e =>
              postMessage (error_message wsId (message_or e "Create WebSocket failed")) st
          end
        else if Bridge.is_string (pm_type msg) WS_SEND then
          match table_get wsId (sockets st) with
          | None => postMessage (error_message wsId "WebSocket is not open") st
          | Some ws =>
              if negb (Z.eqb (real_readyState ws) OPEN) then
                postMessage (error_message wsId "WebSocket is not open") st
              else
                match WebSocket_send ws (pm_data msg) with
                | Ret ws' =>
                    with_table
                      ((λ e, if decide (e.1 = wsId) then (e.1, ws') else e) <$> sockets st)
                      st
                | Throw e =>
                    postMessage (error_message wsId (message_or e "Send message failed")) st
                end
          end
        else if Bridge.is_string (pm_type msg) WS_CLOSE then
          let st :=
            match table_get wsId (sockets st) with
            | None => st
            | Some ws =>
                match close_real wsId ws (pm_code msg) (pm_reason msg) st with
                | (st, None) => st
                | (st, Some e) =>
                    postMessage
                      (error_message wsId (message_or e "Close WebSocket failed")) st
                end
            end in
          cleanupSocket wsId st
        else st
  end.

(** [sockets.forEach]: one turn closes a socket and swallows what it throws. *)
Definition close_on_disconnect (st : PortState) (e : option string * RealSocket)
  : PortState :=
  match close_real e.1 e.2 None None st with
  | (st, None) => st
  | (st, Some _) => console_warn "[PageSpy Extension] Close WS on disconnect failed" st
  end.

(** The [port.onDisconnect] listener. *)
Definition port_onDisconnect (st : PortState) : PortState :=
  let st := foldl close_on_disconnect st (sockets st) in
  with_table [] st.

End Handlers.
End Relay.

(** ** [src/content/bridge.ts]: installation *)

Module Install.

(** [window.fetch] and [window.WebSocket]: the browser's own, or the proxy
    built over what was there when the bridge was installed. *)
Inductive Implementation :=
| Native
| Proxy (original : Implementation).

(** The window as [installBridge] sees it. Registering the same listener
    function again does not add it again, so one flag records it. *)
Record Window := {
  __PAGE_SPY_BRIDGE__ : bool;
  message_listener : bool;
  window_fetch : Implementation;
  window_WebSocket : Implementation
}.

Definition installBridge (window : Window) : Window :=
  if __PAGE_SPY_BRIDGE__ window then window
  else
    let originalFetch := window_fetch window in
    let OriginalWebSocket := window_WebSocket window in
    {| __PAGE_SPY_BRIDGE__ := true;
       message_listener := true;
       window_fetch := Proxy originalFetch;
       window_WebSocket := Proxy OriginalWebSocket |}.

End Install.

(** ** [src/unnamed/part_000]: the content script between page and relay *)

Module Content.

Definition BRIDGE_SCOPE := "pagespy-bridge".
Definition BRIDGE_FETCH := "pagespy:fetch".
Definition WS_OPEN := "pagespy:ws-open".
Definition WS_SEND := "pagespy:ws-send".
Definition WS_CLOSE := "pagespy:ws-close".

(** [event.data] of a window message: the properties the listener reads and
    those the relay reads behind the port. *)
Record WindowData := {
  wd_scope : option string;
  wd_type : option string;
  wd_requestId : option string;
  wd_payload : option Relay.FetchRequest;
  wd_wsId : option string;
  wd_url : string;
  wd_protocols : option (list string);
  wd_data : SocketData;
  wd_code : option Z;
  wd_reason : option string
}.

(** The message as the relay reads it once posted on the port. *)
Definition on_port (msg : WindowData) : Relay.PortMessage :=
  {| Relay.pm_type := wd_type msg; Relay.pm_wsId := wd_wsId msg;
     Relay.pm_url := wd_url msg; Relay.pm_protocols := wd_protocols msg;
     Relay.pm_data := wd_data msg; Relay.pm_code := wd_code msg;
     Relay.pm_reason := wd_reason msg |}.

(** What the script asks of the extension runtime. A [sendMessage] keeps the
    request id for its callback. *)
Inductive Action :=
| runtime_sendMessage (message : Relay.RuntimeMessage) (requestId : option string)
| runtime_connect (name : string)
| port_postMessage (msg : Relay.PortMessage).

(** [wsPort] is [null] or the connected port. *)
Definition ensureWsPort (wsPort : bool) : bool * list Action :=
  if wsPort then (wsPort, [])
  else (true, [runtime_connect "pagespy-ws"]).

(** The port's [onDisconnect] listener. *)
Definition port_onDisconnect (wsPort : bool) : bool := false.

(** The port's [onMessage] listener: what it posts on the window. *)
Definition port_onMessage (msg : WsEventPayload) : Bridge.BridgeData :=
  {| Bridge.msg_scope := Some BRIDGE_SCOPE;
     Bridge.msg_type := Some "pagespy:ws-event";
     Bridge.msg_requestId := None;
     Bridge.msg_payload := Bridge.PayloadEvent msg;
     Bridge.msg_error := None |}.


(** [[WS_OPEN, WS_SEND, WS_CLOSE].includes(msg.type)] *)
Definition is_socket_type (type : option string) : bool :=
  Bridge.is_string type WS_OPEN || Bridge.is_string type WS_SEND
  || Bridge.is_string type WS_CLOSE.

(** The window's [message] listener; [from_window] is
    [event.source === window]. *)
Definition onWindowMessage (from_window : bool) (data : option WindowData)
    (wsPort : bool) : bool * list Action :=
  if negb from_window then (wsPort, [])
  else
    match data with
    | None => (wsPort, [])
    | Some msg =>
        if negb (Bridge.is_string (wd_scope msg) BRIDGE_SCOPE) then (wsPort, [])
        else if Bridge.is_string (wd_type msg) BRIDGE_FETCH then
          (wsPort,
           [runtime_sendMessage
              {| Relay.message_type := Some BRIDGE_FETCH;
                 Relay.message_payload := wd_payload msg |}
              (wd_requestId msg)])
        else if is_socket_type (wd_type msg) then
          let '(port, connected) := ensureWsPort wsPort in
          (port, connected ++ [port_postMessage (on_port msg)])
        else (wsPort, [])
    end.

Section CacheSync.
Context `{Platform}.
Variable JSON_stringify : ExtensionConfig → string.
Variable isEqual : ExtensionConfig → JSON → bool.


End CacheSync.

End Content.

(** ** [src/sw/index.ts]: accepting a port *)

Module RelayPort.

(** The [chrome.runtime.onConnect] listener: a port of another name is left
    alone, a port of the bridge starts with an empty socket table. *)
Definition onConnect (name : string) : option Relay.PortState :=
  if negb (String.eqb name Relay.WS_PORT_NAME) then None
  else
    Some {| Relay.sockets := []; Relay.port_posted := [];
            Relay.closeCalls := []; Relay.warnings := [] |}.

End RelayPort.

(** * Properties *)

(** ** The codec *)

(** What a request body puts on the wire: its bytes, for a multipart form
    its fields in order, and the mime types of blobs and files. *)
Inductive WireField :=
| FieldText (key value : string)
| FieldFile (key name mime : string) (content : bytes).

Inductive WireImage :=
| ImageText (s : string)
| ImageBytes (b : bytes)
| ImageBlob (b : bytes) (mime : string)
| ImageForm (fields : list WireField)
| ImageStream.

Definition wire_field (e : string * FormDataEntryValue) : WireField :=
  match e with
  | (key, FormString s) => FieldText key s
  | (key, FormFile f) => FieldFile key (file_name f) (file_type f) (file_bytes f)
  end.

Definition wire_image `{Platform} (body : BodyInit) : WireImage :=
  match body with
  | BodyString s => ImageText s
  | BodyURLSearchParams p => ImageText (URLSearchParams_toString p)
  | BodyFormData entries => ImageForm (wire_field <$> entries)
  | BodyBlob b => ImageBlob (blob_bytes b) (blob_type b)
  | BodyArrayBuffer b => ImageBytes b
  | BodyView v => ImageBytes (view_bytes v)
  | BodyStream => ImageStream
  end.

(** The bodies the codec accepts; a view is taken with its whole buffer. *)
Definition whole_buffer (v : TypedArray) : Prop :=
  byteOffset v = 0%nat ∧ byteLength v = length (buffer v).

Definition accepted (body : BodyInit) : Prop :=
  match body with
  | BodyString s => s ≠ ""
  | BodyView v => whole_buffer v
  | BodyStream => False
  | _ => True
  end.

(** The relay's side of a body sent through the bridge. *)
Definition through_bridge `{Platform} (body : BodyInit) : option BodyInit :=
  Relay.deserializeBody (Bridge.serializeBody (Some body)).

(** ** Pending fetches *)

(** A fetch-response message of the bridge. *)
Definition is_fetch_response (data : Bridge.BridgeData) : Prop :=
  Bridge.msg_scope data = Some Bridge.BRIDGE_SCOPE
  ∧ Bridge.msg_type data = Some Bridge.BRIDGE_FETCH_RESPONSE.

(** What a response makes of the promise of its request: rejected with the
    error it carries, resolved with its payload otherwise. *)
Definition completion (data : Bridge.BridgeData) : Bridge.PromiseState :=
  if truthy_string (Bridge.errorMsg data)
  then Bridge.Rejected (default "" (Bridge.errorMsg data))
  else Bridge.Resolved (Bridge.msg_payload data).

(** The window delivers a message, then a list of them in order. *)
Definition deliver (st : Bridge.PageState) (data : Bridge.BridgeData) : Bridge.PageState :=
  Bridge.handleBridgeMessage (Some data) st.

Definition deliver_all (responses : list Bridge.BridgeData) (st : Bridge.PageState)
  : Bridge.PageState :=
  foldl deliver st responses.

(** The pending table refers to promises of the store, and no promise is
    pending under two request ids. *)
Definition table_ok (st : Bridge.PageState) : Prop :=
  (∀ id h, Bridge.pendingFetches st !! id = Some h →
           (h < length (Bridge.promises st))%nat)
  ∧ (∀ id1 id2 h, Bridge.pendingFetches st !! id1 = Some h →
                  Bridge.pendingFetches st !! id2 = Some h → id1 = id2).

(** A call of the proxied [fetch]: its arguments and the id [genId] gives. *)
Abbreviation FetchArgs := (Bridge.RequestInput * option RequestInit * string)%type.

(** Calls issued one after the other, before any response arrives. *)
Fixpoint fetch_all `{Platform} (calls : list FetchArgs) (st : Bridge.PageState)
  : Exc (list Bridge.FetchCall * Bridge.PageState) :=
  match calls with
  | [] => Ret ([], st)
  | (input, init, id) :: calls =>
      r ← Bridge.createProxiedFetch input init id st;
      rs ← fetch_all calls r.2;
      Ret (r.1 :: rs.1, rs.2)
  end.

(** ** Eligibility *)

Section Eligibility.
Context `{Platform}.

(** The cache holds the JSON of an object, the configuration. *)
Definition cached_config (storage : gmap string string) (config : ExtensionConfig) : Prop :=
  ∃ raw, storage !! PAGE_SPY_EXTENSION_CONFIG_KEY = Some raw
         ∧ raw ≠ "" ∧ JSON_parse raw = Ret (JSON_object config).

(** There is no cache, or it is empty, or not JSON, or JSON of something
    that is not an object. *)
Definition cache_absent_or_malformed (storage : gmap string string) : Prop :=
  match storage !! PAGE_SPY_EXTENSION_CONFIG_KEY with
  | None => True
  | Some raw =>
      raw = "" ∨ throws (JSON_parse raw) ∨ JSON_parse raw = Ret JSON_null
      ∨ ∃ t, JSON_parse raw = Ret (JSON_primitive t)
  end.

(** The page matches the configured domain rules: there are rules, and the
    rule evaluator accepts the page's origin. *)
Definition page_matches (config : ExtensionConfig) (origin : string) : Prop :=
  ∃ rules, domainRules config = Some rules ∧ rules ≠ ""
           ∧ matchCurrentTab rules origin = true.

(** [https://] when TLS is enabled, [http://] otherwise. *)
Definition service_scheme (config : ExtensionConfig) : string :=
  if truthy_bool (enableSSL config) then "https://" else "http://".

(** A parsed URL printed back as host and path, without a trailing slash. *)
Definition host_and_path (u : URL) : string :=
  if Bridge.endsWith_slash (pathname u)
  then host u +:+ Bridge.slice_0_minus1 (pathname u)
  else host u +:+ pathname u.

(** The host derived from the configured service address: the address is
    there and not empty; with the scheme before it, it parses as a URL; this
    URL printed back as scheme, host and path parses as the client origin;
    and the host of the client origin is [h], not empty. *)
Definition service_host (config : ExtensionConfig) (h : string) : Prop :=
  ∃ address u origin,
    serviceAddress config = Some address ∧ address ≠ ""
    ∧ URL_parse (service_scheme config +:+ address) None = Ret u
    ∧ URL_parse (service_scheme config +:+ host_and_path u) None = Ret origin
    ∧ host origin = h ∧ h ≠ "".

(** The host of the service URL itself, the scheme and the address. *)
Definition service_url_host (config : ExtensionConfig) (h : string) : Prop :=
  ∃ address u, serviceAddress config = Some address ∧ address ≠ ""
               ∧ URL_parse (service_scheme config +:+ address) None = Ret u
               ∧ host u = h ∧ h ≠ "".

(** Parsing is stable at the service address: its URL, printed back as
    scheme, host and path, parses again, and to the same host. The URL
    parser of a browser is stable at every address. *)
Definition reparse_stable (config : ExtensionConfig) : Prop :=
  ∀ address u, serviceAddress config = Some address →
    URL_parse (service_scheme config +:+ address) None = Ret u →
    ∃ u', URL_parse (service_scheme config +:+ host_and_path u) None = Ret u'
          ∧ host u' = host u.

End Eligibility.

(** ** The relay *)

(** The options the relay hands to the real [fetch]: those of the request
    with the header collection [hs] rebuilt from its header list and the body
    deserialised. *)
Definition relayed_init (init : option SerializedInit) (hs : option header_list)
  : RequestInit :=
  {| req_headers := hs;
     req_method := init ≫= init_method;
     req_credentials := init ≫= init_credentials;
     req_body := (init ≫= init_body) ≫= Relay.deserializeBody |}.

(** [new Headers(init.headers)], when the request has a header list. *)
Definition rebuilt_headers `{Relay.Network} (init : option SerializedInit)
  : Exc (option header_list) :=
  match init ≫= init_headers with
  | Some hs => Some <$> Relay.Headers_new hs
  | None => Ret None
  end.

Definition threw {A} (c : Exc A) : bool :=
  match c with
  | Ret _ => false
  | Throw _ => true
  end.

(** The [close()] a disconnect makes on a socket of the table. *)
Definition disconnect_call `{Relay.Network} (e : option string * Relay.RealSocket)
  : Relay.CloseCall :=
  {| Relay.close_socket := e.2; Relay.close_code := None;
     Relay.close_reason := None;
     Relay.close_threw := threw (Relay.WebSocket_close e.2 None None) |}.

(** ** The page's bus and tables *)

(** A ws-event message of the bridge. *)
Definition is_socket_event (data : Bridge.BridgeData) : Prop :=
  Bridge.msg_scope data = Some Bridge.BRIDGE_SCOPE
  ∧ Bridge.msg_type data = Some Bridge.WS_EVENT.

(** Every id of the socket table refers to an object of the store that
    carries this id. *)
Definition sockets_ok (st : Bridge.PageState) : Prop :=
  ∀ id ref, Bridge.socketMap st !! id = Some ref →
    ∃ ws, Bridge.objects st !! ref = Some ws ∧ Bridge.wsId ws = id.

(** The object the page hands to [window.postMessage], as the listeners on
    the window read it. *)
Definition posted_data (m : Bridge.Posted) : Content.WindowData :=
  let blank :=
    {| Content.wd_scope := Some Bridge.BRIDGE_SCOPE;
       Content.wd_type := Some (Bridge.posted_type m);
       Content.wd_requestId := None; Content.wd_payload := None;
       Content.wd_wsId := None; Content.wd_url := "";
       Content.wd_protocols := None; Content.wd_data := DataNone;
       Content.wd_code := None; Content.wd_reason := None |} in
  match m with
  | Bridge.PostFetch requestId url init =>
      {| Content.wd_scope := Content.wd_scope blank;
         Content.wd_type := Content.wd_type blank;
         Content.wd_requestId := Some requestId;
         Content.wd_payload :=
           Some {| Relay.fetch_url := url; Relay.fetch_init := Some init |};
         Content.wd_wsId := None; Content.wd_url := "";
         Content.wd_protocols := None; Content.wd_data := DataNone;
         Content.wd_code := None; Content.wd_reason := None |}
  | Bridge.PostWsOpen wsId url protocols =>
      {| Content.wd_scope := Content.wd_scope blank;
         Content.wd_type := Content.wd_type blank;
         Content.wd_requestId := None; Content.wd_payload := None;
         Content.wd_wsId := Some wsId; Content.wd_url := url;
         Content.wd_protocols := Some protocols; Content.wd_data := DataNone;
         Content.wd_code := None; Content.wd_reason := None |}
  | Bridge.PostWsSend wsId data =>
      {| Content.wd_scope := Content.wd_scope blank;
         Content.wd_type := Content.wd_type blank;
         Content.wd_requestId := None; Content.wd_payload := None;
         Content.wd_wsId := Some wsId; Content.wd_url := "";
         Content.wd_protocols := None; Content.wd_data := data;
         Content.wd_code := None; Content.wd_reason := None |}
  | Bridge.PostWsClose wsId code reason =>
      {| Content.wd_scope := Content.wd_scope blank;
         Content.wd_type := Content.wd_type blank;
         Content.wd_requestId := None; Content.wd_payload := None;
         Content.wd_wsId := Some wsId; Content.wd_url := "";
         Content.wd_protocols := None; Content.wd_data := DataNone;
         Content.wd_code := code; Content.wd_reason := reason |}
  end.

(** The same object as the page's own [message] listener reads it: a
    request carries no response payload and no error. *)
Definition posted_echo (m : Bridge.Posted) : Bridge.BridgeData :=
  {| Bridge.msg_scope := Some Bridge.BRIDGE_SCOPE;
     Bridge.msg_type := Some (Bridge.posted_type m);
     Bridge.msg_requestId :=
       match m with Bridge.PostFetch requestId _ _ => Some requestId | _ => None end;
     Bridge.msg_payload := Bridge.PayloadUndefined;
     Bridge.msg_error := None |}.




(** Some message of the list is the response for the request [id]. *)
Definition answered (messages : list Bridge.BridgeData) (id : string) : Prop :=
  ∃ data, data ∈ messages ∧ is_fetch_response data
          ∧ Bridge.msg_requestId data = Some id.

(** ** The relay's socket table *)

(** No id occurs twice in the table. *)
Definition keys_unique (st : Relay.PortState) : Prop :=
  NoDup (Relay.sockets st).*1.

(** ** The content script at work *)

(** The content script receiving the messages of the page in order: the
    port it ends with and the actions it takes. *)
Fixpoint forward_all (ms : list Bridge.Posted) (wsPort : bool)
  : bool * list Content.Action :=
  match ms with
  | [] => (wsPort, [])
  | m :: ms =>
      let r := Content.onWindowMessage true (Some (posted_data m)) wsPort in
      let rs := forward_all ms r.1 in
      (rs.1, r.2 ++ rs.2)
  end.

Definition is_connect (a : Content.Action) : Prop :=
  match a with
  | Content.runtime_connect _ => True
  | _ => False
  end.

#[global] Instance is_connect_dec (a : Content.Action) : Decision (is_connect a).
Proof. destruct a; simpl; apply _. Defined.

Definition count_connects (actions : list Content.Action) : nat :=
  length (filter is_connect actions).


(** ** Sample inputs

    The scenario of the specification: the service address is [svc.local]
    with TLS, the page matches the rules, and the page talks to
    [https://svc.local/api]. *)

Definition sample_config : ExtensionConfig :=
  {| domainRules := Some "*"; enableSSL := Some true;
     serviceAddress := Some "svc.local" |}.

Definition sample_url (h path : string) : URL :=
  {| host := h; pathname := path; href := "https://" +:+ h +:+ path |}.

(** A platform that knows one cache content and three URLs. *)
Definition sample_platform : Platform :=
  {| JSON_parse raw :=
       if String.eqb raw "{config}" then Ret (JSON_object sample_config)
       else if String.eqb raw "null" then Ret JSON_null
       else Throw "SyntaxError";
     URL_parse url base :=
       if String.eqb url "https://svc.local" then Ret (sample_url "svc.local" "/")
       else if String.eqb url "https://svc.local/api"
       then Ret (sample_url "svc.local" "/api")
       else if String.eqb url "https://other.example/"
       then Ret (sample_url "other.example" "/")
       else Throw "Invalid URL";
     URLSearchParams_toString params := "";
     matchCurrentTab rules origin := String.eqb rules "*";
     PAGE_SPY_EXTENSION_CONFIG_KEY := "page-spy-extension-config" |}.

(** Constructors that accept every header list and status text. *)
Definition sample_page_api : PageAPI :=
  {| Headers_from hs := Ret hs; valid_statusText s := true |}.

(** A service address with a default port and a path, and a platform that
    parses its URL and the URL rebuilt from it. *)
Definition port_config : ExtensionConfig :=
  {| domainRules := Some "*"; enableSSL := Some true;
     serviceAddress := Some "svc.local:443/room/" |}.

Definition port_platform : Platform :=
  {| JSON_parse raw :=
       if String.eqb raw "{config}" then Ret (JSON_object port_config)
       else Throw "SyntaxError";
     URL_parse url base :=
       if String.eqb url "https://svc.local:443/room/"
       then Ret {| host := "svc.local"; pathname := "/room/";
                   href := "https://svc.local/room/" |}
       else if String.eqb url "https://svc.local/room"
       then Ret {| host := "svc.local"; pathname := "/room";
                   href := "https://svc.local/room" |}
       else Throw "Invalid URL";
     URLSearchParams_toString params := "";
     matchCurrentTab rules origin := String.eqb rules "*";
     PAGE_SPY_EXTENSION_CONFIG_KEY := "page-spy-extension-config" |}.

Definition sample_page (storage : gmap string string) : Bridge.PageState :=
  {| Bridge.pendingFetches := ∅; Bridge.promises := [];
     Bridge.socketMap := ∅; Bridge.objects := [];
     Bridge.sessionStorage := storage;
     Bridge.location_origin := "https://app.example";
     Bridge.location_href := "https://app.example/";
     Bridge.posted := []; Bridge.observed := [] |}.

Definition sample_storage : gmap string string :=
  {[ "page-spy-extension-config" := "{config}" ]}.

Definition sample_socket (rs : Z) : Bridge.BridgeWebSocket :=
  {| Bridge.readyState := rs; Bridge.url := "wss://svc.local/ws";
     Bridge.protocol := ""; Bridge.binaryType := "blob"; Bridge.wsId := "ws_1";
     Bridge.onopen := None; Bridge.onmessage := None;
     Bridge.onerror := Some 7%nat; Bridge.onclose := None |}.

Definition sample_event (kind : string) : Bridge.Payload :=
  Bridge.PayloadEvent
    {| evt_wsId := Some "ws_1"; evt_event := Some kind; evt_data := DataNone;
       evt_code := None; evt_reason := None; evt_wasClean := None;
       evt_error := None |}.

(** The response [{ status: 200, body: text }] for the request [id]. *)
Definition sample_response (id text : string) : Bridge.BridgeData :=
  {| Bridge.msg_scope := Some Bridge.BRIDGE_SCOPE;
     Bridge.msg_type := Some Bridge.BRIDGE_FETCH_RESPONSE;
     Bridge.msg_requestId := Some id;
     Bridge.msg_payload :=
       Bridge.PayloadFetch
         {| Bridge.ok := Some true; Bridge.status := 200;
            Bridge.statusText := "OK"; Bridge.headers := [];
            Bridge.body := text; Bridge.error := None |};
     Bridge.msg_error := None |}.


Definition sample_calls : list FetchArgs :=
  [(Bridge.InputString "https://svc.local/api", None, "fetch_a");
   (Bridge.InputString "https://svc.local/api", None, "fetch_b")].

(** The page once both sample calls are outstanding. *)
Definition sample_page_pending : Bridge.PageState :=
  let init :=
    {| init_headers := None; init_method := None;
       init_credentials := None; init_body := None |} in
  {| Bridge.pendingFetches := <["fetch_b" := 1%nat]> {[ "fetch_a" := 0%nat ]};
     Bridge.promises := [Bridge.Pending; Bridge.Pending];
     Bridge.socketMap := ∅; Bridge.objects := [];
     Bridge.sessionStorage := sample_storage;
     Bridge.location_origin := "https://app.example";
     Bridge.location_href := "https://app.example/";
     Bridge.posted :=
       [Bridge.PostFetch "fetch_a" "https://svc.local/api" init;
        Bridge.PostFetch "fetch_b" "https://svc.local/api" init];
     Bridge.observed := [] |}.

(** A network where nothing works: every operation throws. *)
Definition failing_network : Relay.Network :=
  {| Relay.Headers_new hs := Throw "Invalid name";
     Relay.fetch url init := Throw "Failed to fetch";
     Relay.WebSocket_new url protocols := Throw "SyntaxError";
     Relay.WebSocket_send ws data := Throw "InvalidStateError";
     Relay.WebSocket_close ws code reason := Throw "InvalidAccessError" |}.

Definition sample_real_socket : Relay.RealSocket :=
  {| Relay.real_url := "wss://svc.local/ws"; Relay.real_protocols := None;
     Relay.real_readyState := 1 |}.

Definition sample_port : Relay.PortState :=
  {| Relay.sockets := [(Some "ws_1", sample_real_socket);
                       (Some "ws_2", sample_real_socket)];
     Relay.port_posted := []; Relay.closeCalls := []; Relay.warnings := [] |}.

Definition sample_ws_close : Relay.PortMessage :=
  {| Relay.pm_type := Some Relay.WS_CLOSE; Relay.pm_wsId := Some "ws_1";
     Relay.pm_url := ""; Relay.pm_protocols := None; Relay.pm_data := DataNone;
     Relay.pm_code := Some 1; Relay.pm_reason := None |}.

Definition sample_fetch_request : Relay.RuntimeMessage :=
  {| Relay.message_type := Some Relay.BRIDGE_MESSAGE_TYPE;
     Relay.message_payload :=
       Some {| Relay.fetch_url := "https://svc.local/api";
               Relay.fetch_init := None |} |}.

(** More sample inputs: foreign traffic, socket events, a page with one
    open socket, a network where everything works. *)

Definition sample_foreign : Bridge.BridgeData :=
  {| Bridge.msg_scope := Some "another-extension";
     Bridge.msg_type := Some Bridge.BRIDGE_FETCH_RESPONSE;
     Bridge.msg_requestId := Some "fetch_a";
     Bridge.msg_payload := Bridge.PayloadUndefined;
     Bridge.msg_error := None |}.

Definition sample_event_data (kind : string) : Bridge.BridgeData :=
  {| Bridge.msg_scope := Some Bridge.BRIDGE_SCOPE;
     Bridge.msg_type := Some Bridge.WS_EVENT;
     Bridge.msg_requestId := None;
     Bridge.msg_payload := sample_event kind;
     Bridge.msg_error := None |}.

Definition sample_page_socket : Bridge.PageState :=
  {| Bridge.pendingFetches := {[ "fetch_a" := 0%nat ]};
     Bridge.promises := [Bridge.Pending];
     Bridge.socketMap := {[ "ws_1" := 0%nat ]};
     Bridge.objects := [sample_socket Bridge.OPEN];
     Bridge.sessionStorage := sample_storage;
     Bridge.location_origin := "https://app.example";
     Bridge.location_href := "https://app.example/";
     Bridge.posted := []; Bridge.observed := [] |}.



Definition sample_native_response : Relay.NativeResponse :=
  {| Relay.res_status := 200; Relay.res_statusText := "OK";
     Relay.res_headers := [("content-type", "text/plain")];
     Relay.res_text := Ret "ok" |}.

Definition working_network : Relay.Network :=
  {| Relay.Headers_new hs := Ret hs;
     Relay.fetch url init := Ret sample_native_response;
     Relay.WebSocket_new url protocols :=
       Ret {| Relay.real_url := url; Relay.real_protocols := protocols;
              Relay.real_readyState := 0 |};
     Relay.WebSocket_send ws data := Ret ws;
     Relay.WebSocket_close ws code reason :=
       Ret {| Relay.real_url := Relay.real_url ws;
              Relay.real_protocols := Relay.real_protocols ws;
              Relay.real_readyState := 2 |} |}.



Definition sample_ws_open : Relay.PortMessage :=
  {| Relay.pm_type := Some Relay.WS_OPEN; Relay.pm_wsId := Some "ws_3";
     Relay.pm_url := "wss://svc.local/ws"; Relay.pm_protocols := Some [];
     Relay.pm_data := DataNone; Relay.pm_code := None; Relay.pm_reason := None |}.

Definition sample_ws_send (wsId : string) : Relay.PortMessage :=
  {| Relay.pm_type := Some Relay.WS_SEND; Relay.pm_wsId := Some wsId;
     Relay.pm_url := ""; Relay.pm_protocols := None;
     Relay.pm_data := DataString "ping"; Relay.pm_code := None;
     Relay.pm_reason := None |}.

Definition sample_window : Install.Window :=
  {| Install.__PAGE_SPY_BRIDGE__ := false; Install.message_listener := false;
     Install.window_fetch := Install.Native;
     Install.window_WebSocket := Install.Native |}.

Definition sample_request_init : RequestInit :=
  {| req_headers := None; req_method := Some "POST";
     req_credentials := Some "include";
     req_body := Some (BodyBlob {| blob_bytes := [x01; x02];
                                   blob_type := "image/png" |}) |}.

(** * Theorems *)

Section CodecFacts.
Context `{Platform}.

Lemma view_bytes_Uint8Array_of (b : bytes) : view_bytes (Uint8Array_of b) = b.
Proof. unfold view_bytes, Uint8Array_of; simpl. apply firstn_all. Qed.

Lemma view_bytes_whole (v : TypedArray) : whole_buffer v → view_bytes v = buffer v.
Proof.
  intros [Hoff Hlen]. unfold view_bytes. rewrite Hoff, Hlen. simpl.
  apply firstn_all.
Qed.

Lemma mime_or_empty_Some (m : string) : Relay.mime_or_empty (Some m) = m.
Proof.
  unfold Relay.mime_or_empty, or_else, truthy_string.
  destruct (String.eqb_spec m ""); simpl; congruence.
Qed.

Lemma entry_roundtrip (e : string * FormDataEntryValue) :
  wire_field (Relay.appendEntry (Bridge.serializeEntry e)) = wire_field e.
Proof.
  destruct e as [key [s | f]]; simpl; [reflexivity |].
  rewrite mime_or_empty_Some. unfold File_arrayBuffer.
  now rewrite view_bytes_Uint8Array_of.
Qed.

(** Every accepted body reaches the relay with the same content, the same
    fields in the same order and the same mime types. *)
Lemma accepted_body_roundtrip (body : BodyInit) :
  accepted body →
  ∃ body', through_bridge body = Some body' ∧ wire_image body' = wire_image body.
Proof.
  unfold through_bridge.
  destruct body as [s | p | entries | b | b | v |]; simpl; intros Hacc.
  - destruct (String.eqb_spec s ""); [contradiction |]. eauto.
  - eauto.
  - eexists; split; [reflexivity |]. simpl. f_equal.
    rewrite <- !list_fmap_compose. apply list_fmap_ext.
    intros _ e _. apply entry_roundtrip.
  - eexists; split; [reflexivity |]. simpl.
    rewrite mime_or_empty_Some. unfold Blob_arrayBuffer.
    now rewrite view_bytes_Uint8Array_of.
  - eexists; split; [reflexivity |]. simpl.
    now rewrite view_bytes_Uint8Array_of.
  - eexists; split; [reflexivity |]. simpl.
    rewrite view_bytes_Uint8Array_of. f_equal. symmetry. now apply view_bytes_whole.
  - contradiction.
Qed.

(** The empty string is sent as no body at all. *)
Lemma empty_string_sent_as_no_body : through_bridge (BodyString "") = None.
Proof. reflexivity. Qed.

(** A body kind the codec does not know is dropped. *)
Lemma stream_sent_as_no_body : through_bridge BodyStream = None.
Proof. reflexivity. Qed.

(** Any typed-array view arrives as its whole underlying buffer. *)
Lemma view_sent_as_whole_buffer (v : TypedArray) :
  ∃ body', through_bridge (BodyView v) = Some body'
           ∧ wire_image body' = ImageBytes (buffer v).
Proof.
  eexists; split; [reflexivity |]. simpl. now rewrite view_bytes_Uint8Array_of.
Qed.

(** C1: the codec does not reproduce every accepted body: of the view
    [new Uint8Array(buf, 1, 2)] over the four bytes 1, 2, 3, 4, whose content
    is the two bytes 2, 3, the relay rebuilds a body of all four bytes. *)
Theorem view_with_offset_not_reproduced :
  let v := {| buffer := [x01; x02; x03; x04]; byteOffset := 1; byteLength := 2 |} in
  wire_image (BodyView v) = ImageBytes [x02; x03]
  ∧ ∃ body', through_bridge (BodyView v) = Some body'
             ∧ wire_image body' = ImageBytes [x01; x02; x03; x04]
             ∧ wire_image body' ≠ wire_image (BodyView v).
Proof.
  simpl. split; [reflexivity |].
  eexists; split; [reflexivity |]. split; [reflexivity | discriminate].
Qed.

End CodecFacts.

(** ** The proxied socket *)

Section SocketFacts.
Import Bridge.

Lemma is_open_spec (this : BridgeWebSocket) :
  Z.eqb (readyState this) OPEN = true ↔ readyState this = OPEN.
Proof. apply Z.eqb_eq. Qed.

(** C5: [send] throws exactly when the ready-state is not open; on an open
    socket it returns, having posted the data as it is in a ws-send message
    under the socket's id. *)
Theorem send_throws_iff_not_open (this : BridgeWebSocket) (data : SocketData)
    (out : list Posted) :
  (throws (send this data out) ↔ readyState this ≠ OPEN)
  ∧ (readyState this = OPEN →
     send this data out = Ret (out ++ [PostWsSend (wsId this) data])
     ∧ posted_type (PostWsSend (wsId this) data) = WS_SEND).
Proof.
  unfold send. destruct (Z.eqb_spec (readyState this) OPEN) as [Heq | Hne]; simpl.
  - split.
    + split; [intros [e He]; discriminate | intros Hne; contradiction].
    + intros _. split; reflexivity.
  - split.
    + split; [intros _; assumption | intros _; eexists; reflexivity].
    + intros Heq. contradiction.
Qed.

(** A socket is built connecting, so [send] throws until the remote open
    event has been handled, and again once it is closing or closed. *)
Lemma send_through_lifecycle url protocols id ref map out data payload obs :
  payload_event payload = Some "open" →
  let ws := (BridgeWebSocket_new url protocols id ref map out).1.1 in
  let opened := (handleRemoteEvent ws payload map obs).1.1 in
  throws (send ws data out)
  ∧ returns (send opened data out)
  ∧ throws (send (close opened None None out).1 data out).
Proof.
  intros Hev ws opened. subst opened. unfold handleRemoteEvent. rewrite Hev. simpl.
  repeat split; eexists; reflexivity.
Qed.

(** C6, as amended: [close] changes nothing on a closed socket, so a second
    [close] after the remote close event is a no-op; on any other socket,
    one that is already closing included, it sets the ready-state to closing
    and posts a ws-close message; it never sets the ready-state to closed,
    which only the remote close event does. *)
Theorem close_by_ready_state (this : BridgeWebSocket) (code : option Z)
    (reason : option string) (out : list Posted) :
  (readyState this = CLOSED → close this code reason out = (this, out))
  ∧ (readyState this ≠ CLOSED →
     close this code reason out =
       (set_readyState CLOSING this, out ++ [PostWsClose (wsId this) code reason])
     ∧ readyState (close this code reason out).1 = CLOSING)
  ∧ (readyState (close this code reason out).1 = CLOSED ↔ readyState this = CLOSED)
  ∧ (∀ payload map obs code' reason' out',
       payload_event payload = Some "close" →
       let closed := (handleRemoteEvent (close this code reason out).1 payload map obs).1.1 in
       readyState closed = CLOSED
       ∧ close closed code' reason' out' = (closed, out')).
Proof.
  unfold close.
  destruct (Z.eqb_spec (readyState this) CLOSED) as [Heq | Hne]; simpl.
  - split; [reflexivity |]. split; [intros Hne; contradiction |].
    split; [tauto |].
    intros payload map obs code' reason' out' Hev.
    unfold handleRemoteEvent. rewrite Hev. simpl. split; reflexivity.
  - split; [intros Heq; contradiction |]. split; [intros _; split; reflexivity |].
    split.
    + split; [discriminate | intros Heq; contradiction].
    + intros payload map obs code' reason' out' Hev.
      unfold handleRemoteEvent. rewrite Hev. simpl. split; reflexivity.
Qed.

(** C10: a remote event that is neither open nor close (error, message, an
    unknown kind, none) leaves the socket object and the socket table as
    they are; open sets the ready-state to open and leaves the table alone;
    close sets the ready-state to closed and deletes the socket's id. *)
Theorem handleRemoteEvent_frame (this : BridgeWebSocket) (payload : Payload)
    (map : gmap string nat) (obs : list Observation) :
  let this' := (handleRemoteEvent this payload map obs).1.1 in
  let map' := (handleRemoteEvent this payload map obs).1.2 in
  (payload_event payload ≠ Some "open" → payload_event payload ≠ Some "close" →
   this' = this ∧ map' = map)
  ∧ (payload_event payload = Some "open" → readyState this' = OPEN ∧ map' = map)
  ∧ (payload_event payload = Some "close" →
     readyState this' = CLOSED ∧ map' = delete (wsId this) map)
  ∧ (readyState this' ≠ readyState this →
     (payload_event payload = Some "open" ∧ readyState this' = OPEN)
     ∨ (payload_event payload = Some "close" ∧ readyState this' = CLOSED))
  ∧ (map' ≠ map → payload_event payload = Some "close").
Proof.
  unfold handleRemoteEvent.
  destruct (payload_event payload) as [kind |]; simpl; [| repeat split; congruence].
  destruct (String.eqb_spec kind "open") as [-> | Hopen]; simpl.
  { repeat split; try congruence. intros _. left. split; reflexivity. }
  destruct (String.eqb_spec kind "message") as [-> | Hmsg]; simpl.
  { repeat split; congruence. }
  destruct (String.eqb_spec kind "error") as [-> | Herr]; simpl.
  { repeat split; congruence. }
  destruct (String.eqb_spec kind "close") as [-> | Hclose]; simpl.
  { repeat split; try congruence. intros _. right. split; reflexivity. }
  repeat split; congruence.
Qed.

End SocketFacts.

(** ** Pending fetches and their responses *)

Section FetchFacts.
Context `{Platform}.
Import Bridge.

Lemma with_fetches_same (st : PageState) :
  with_fetches (pendingFetches st) (promises st) st = st.
Proof. now destruct st. Qed.

Lemma settle_length h o (ps : list PromiseState) : length (settle h o ps) = length ps.
Proof.
  unfold settle. destruct (ps !! h) as [[| |] |]; try reflexivity.
  apply length_insert.
Qed.

Lemma settle_pending h o (ps : list PromiseState) :
  ps !! h = Some Pending → settle h o ps !! h = Some o.
Proof.
  intros Hp. unfold settle. rewrite Hp.
  apply list_lookup_insert_eq. now apply lookup_lt_Some in Hp.
Qed.

Lemma settle_other h h' o (ps : list PromiseState) :
  h ≠ h' → settle h o ps !! h' = ps !! h'.
Proof.
  intros Hne. unfold settle. destruct (ps !! h) as [[| |] |]; try reflexivity.
  now apply list_lookup_insert_ne.
Qed.

(** A settled promise stays as it is. *)
Lemma settle_settled h h' o s (ps : list PromiseState) :
  ps !! h' = Some s → s ≠ Pending → settle h o ps !! h' = Some s.
Proof.
  intros Hs Hne. destruct (decide (h = h')) as [-> |].
  - unfold settle. rewrite Hs. now destruct s.
  - now rewrite settle_other.
Qed.

Lemma handleSocketEvent_fetches data st :
  pendingFetches (handleSocketEvent data st) = pendingFetches st
  ∧ promises (handleSocketEvent data st) = promises st.
Proof.
  unfold handleSocketEvent. destruct (is_string _ _); [| easy].
  destruct (_ ≫= _) as [ref |]; [| easy].
  destruct (objects st !! ref) as [ws |]; [| easy].
  now destruct (handleRemoteEvent _ _ _ _) as [[? ?] ?].
Qed.

Lemma handleSocketEvent_response data st :
  msg_type data = Some BRIDGE_FETCH_RESPONSE → handleSocketEvent data st = st.
Proof. intros Ht. unfold handleSocketEvent. now rewrite Ht. Qed.

(** What the handler does with a fetch response. *)
Lemma handle_response_pending data id h st :
  is_fetch_response data → msg_requestId data = Some id →
  pendingFetches st !! id = Some h →
  handleBridgeMessage (Some data) st =
    with_fetches (delete id (pendingFetches st))
      (settle h (completion data) (promises st)) st.
Proof.
  intros [Hs Ht] Hid Hp. unfold handleBridgeMessage, completion.
  rewrite Hs, Ht, Hid. simpl. rewrite Hp.
  destruct (truthy_string (errorMsg data)); [reflexivity |].
  now apply handleSocketEvent_response.
Qed.

Lemma handle_response_unknown data st :
  is_fetch_response data →
  msg_requestId data ≫= (pendingFetches st !!.) = None →
  handleBridgeMessage (Some data) st = st.
Proof.
  intros [Hs Ht] Hp. unfold handleBridgeMessage.
  rewrite Hs, Ht. simpl. rewrite Hp.
  destruct (msg_requestId data) as [id |]; simpl in *.
  - rewrite delete_id by assumption. apply with_fetches_same.
  - apply with_fetches_same.
Qed.

(** C3: handling a fetch response deletes its id from the pending table and
    nothing else; a response whose id is not in the table leaves the whole
    page state as it is, so a second response for the same id does nothing. *)
Theorem duplicate_response_ignored (st : PageState) (data : BridgeData) (id : string) :
  is_fetch_response data → msg_requestId data = Some id →
  let st' := handleBridgeMessage (Some data) st in
  pendingFetches st' = delete id (pendingFetches st)
  ∧ pendingFetches st' !! id = None
  ∧ (∀ id', id' ≠ id → pendingFetches st' !! id' = pendingFetches st !! id')
  ∧ (pendingFetches st !! id = None → st' = st)
  ∧ (∀ data', is_fetch_response data' → msg_requestId data' = Some id →
              handleBridgeMessage (Some data') st' = st').
Proof.
  intros Hresp Hid st'.
  assert (Hdel : pendingFetches st' = delete id (pendingFetches st)).
  { subst st'. destruct (pendingFetches st !! id) as [h |] eqn:Hp.
    - now rewrite (handle_response_pending _ _ _ _ Hresp Hid Hp).
    - rewrite handle_response_unknown; [| assumption | now rewrite Hid].
      now rewrite delete_id. }
  split; [assumption |]. rewrite Hdel.
  split; [apply lookup_delete_eq |].
  split; [intros id' Hne; now apply lookup_delete_ne |].
  split.
  - intros Hp. subst st'. apply handle_response_unknown; [assumption |].
    now rewrite Hid.
  - intros data' Hresp' Hid'. apply handle_response_unknown; [assumption |].
    rewrite Hid'. simpl. rewrite Hdel. apply lookup_delete_eq.
Qed.

(** Handling any message leaves a settled promise as it is. *)
Lemma deliver_settled data st h s :
  promises st !! h = Some s → s ≠ Pending →
  promises (deliver st data) !! h = Some s.
Proof.
  intros Hs Hne. unfold deliver, handleBridgeMessage.
  destruct (negb _); [assumption |].
  destruct (is_string (msg_type data) BRIDGE_FETCH_RESPONSE).
  - destruct (_ ≫= _) as [h' |]; [| assumption].
    destruct (truthy_string _).
    + simpl. now apply settle_settled.
    + rewrite (proj2 (handleSocketEvent_fetches _ _)). simpl.
      now apply settle_settled.
  - now rewrite (proj2 (handleSocketEvent_fetches _ _)).
Qed.

Lemma deliver_all_settled responses st h s :
  promises st !! h = Some s → s ≠ Pending →
  promises (deliver_all responses st) !! h = Some s.
Proof.
  revert st. induction responses as [| d rest IH]; intros st Hs Hne; [assumption |].
  simpl. apply IH; [| assumption]. now apply deliver_settled.
Qed.

Lemma table_ok_delete id ps st :
  table_ok st → length ps = length (promises st) →
  table_ok (with_fetches (delete id (pendingFetches st)) ps st).
Proof.
  intros [Hb Hi] Hlen. split; simpl.
  - intros id' h Hl. rewrite Hlen. apply lookup_delete_Some in Hl as [_ Hl]. eauto.
  - intros id1 id2 h H1 H2.
    apply lookup_delete_Some in H1 as [_ H1].
    apply lookup_delete_Some in H2 as [_ H2]. eauto.
Qed.

(** Among responses with pairwise distinct ids, the one carrying the id of a
    pending request settles the promise of that request, whatever comes
    before and after it. *)
Lemma deliver_all_own responses : ∀ st id h data,
  table_ok st → Forall is_fetch_response responses →
  NoDup (msg_requestId <$> responses) →
  pendingFetches st !! id = Some h → promises st !! h = Some Pending →
  data ∈ responses → msg_requestId data = Some id →
  promises (deliver_all responses st) !! h = Some (completion data).
Proof.
  induction responses as [| d rest IH]; intros st id h data Hok Hall Hnd Hp Hh Hin Hid.
  { now apply elem_of_nil in Hin. }
  apply Forall_cons in Hall as [Hd Hall]. rewrite fmap_cons in Hnd.
  apply NoDup_cons in Hnd as [Hfresh Hnd]. simpl.
  destruct (decide (msg_requestId d = Some id)) as [Hsame | Hother].
  - assert (data = d) as ->.
    { apply elem_of_cons in Hin as [-> | Hin]; [reflexivity |].
      exfalso. apply Hfresh. rewrite Hsame, <- Hid. now apply list_elem_of_fmap_2. }
    apply deliver_all_settled.
    + unfold deliver. rewrite (handle_response_pending _ _ _ _ Hd Hsame Hp). simpl.
      now apply settle_pending.
    + unfold completion. now destruct (truthy_string _).
  - apply elem_of_cons in Hin as [-> | Hin]; [congruence |].
    destruct (msg_requestId d ≫= (pendingFetches st !!.)) as [h' |] eqn:Hd'.
    + destruct (msg_requestId d) as [id' |] eqn:Hid'; [| discriminate]. simpl in Hd'.
      assert (id' ≠ id) by congruence.
      assert (h' ≠ h) by (intros ->; destruct Hok as [_ Hinj]; eauto).
      unfold deliver at 1. rewrite (handle_response_pending _ _ _ _ Hd Hid' Hd').
      apply (IH _ id h data); try assumption.
      * apply table_ok_delete; [assumption | apply settle_length].
      * simpl. now rewrite lookup_delete_ne.
      * simpl. now rewrite settle_other.
    + unfold deliver at 1. rewrite handle_response_unknown by assumption.
      now apply (IH _ id h data).
Qed.

(** *** Issuing the requests *)

Lemma createProxiedFetch_inv input init id st c st' :
  createProxiedFetch input init id st = Ret (c, st') →
  (c = NativeFetch input init ∧ st' = st)
  ∨ (c = ProxiedFetch (length (promises st))
     ∧ pendingFetches st' = <[id := length (promises st)]> (pendingFetches st)
     ∧ promises st' = promises st ++ [Pending]).
Proof.
  unfold createProxiedFetch.
  destruct (URL_parse _ _) as [targetUrl | e]; simpl; [| discriminate].
  destruct (shouldProxyUrl _ _) as [[|] | e]; simpl; try discriminate.
  - intros [= <- <-]. right. simpl. auto.
  - intros [= <- <-]. now left.
Qed.

Lemma createProxiedFetch_ok input init id st c st' :
  createProxiedFetch input init id st = Ret (c, st') → table_ok st →
  table_ok st'
  ∧ (∀ h s, promises st !! h = Some s → promises st' !! h = Some s)
  ∧ (∀ id', id' ≠ id → pendingFetches st' !! id' = pendingFetches st !! id').
Proof.
  intros Hc [Hb Hi].
  apply createProxiedFetch_inv in Hc as [[_ ->] | (_ & Hf & Hp)]; [easy |].
  split; [split |]; rewrite ?Hf, ?Hp.
  - intros id' h Hl. rewrite length_app. simpl.
    apply lookup_insert_Some in Hl as [[_ <-] | [_ Hl]]; [lia |].
    apply Hb in Hl. lia.
  - intros id1 id2 h H1 H2.
    apply lookup_insert_Some in H1 as [[<- <-] | [Hn1 H1]];
      apply lookup_insert_Some in H2 as [[<- Hh] | [Hn2 H2]]; try reflexivity.
    + apply Hb in H2. lia.
    + apply Hb in H1. lia.
    + eauto.
  - split.
    + intros h s Hs. now apply lookup_app_l_Some.
    + intros id' Hne. now apply lookup_insert_ne.
Qed.

Lemma fetch_all_frame calls : ∀ st cs st',
  fetch_all calls st = Ret (cs, st') → table_ok st →
  table_ok st'
  ∧ (∀ h s, promises st !! h = Some s → promises st' !! h = Some s)
  ∧ (∀ id, id ∉ calls.*2 → pendingFetches st' !! id = pendingFetches st !! id).
Proof.
  induction calls as [| [[input init] id] rest IH]; intros st cs st' Hrun Hok.
  { injection Hrun as <- <-. easy. }
  simpl in Hrun.
  destruct (createProxiedFetch input init id st) as [[c st1] | e] eqn:Hc;
    simpl in Hrun; [| discriminate].
  destruct (fetch_all rest st1) as [[cs' st2] | e] eqn:Hrest;
    simpl in Hrun; [| discriminate].
  injection Hrun as <- <-.
  destruct (createProxiedFetch_ok _ _ _ _ _ _ Hc Hok) as (Hok1 & Hp1 & Hf1).
  destruct (IH _ _ _ Hrest Hok1) as (Hok2 & Hp2 & Hf2).
  split; [assumption |]. split; [eauto |].
  intros id' Hnot. rewrite fmap_cons in Hnot. simpl in Hnot.
  apply not_elem_of_cons in Hnot as [Hne Hnot].
  rewrite Hf2 by assumption. now apply Hf1.
Qed.

(** Every proxied call has, once all are issued, its own entry of the table
    and its own pending promise. *)
Lemma fetch_all_pending calls : ∀ st hs st',
  fetch_all calls st = Ret (ProxiedFetch <$> hs, st') → table_ok st →
  NoDup (calls.*2) →
  ∀ i h id, hs !! i = Some h → calls.*2 !! i = Some id →
    pendingFetches st' !! id = Some h ∧ promises st' !! h = Some Pending.
Proof.
  induction calls as [| [[input init] id0] rest IH];
    intros st hs st' Hrun Hok Hnd i h id Hh Hi; [discriminate |].
  simpl in Hrun.
  destruct (createProxiedFetch input init id0 st) as [[c st1] | e] eqn:Hc;
    simpl in Hrun; [| discriminate].
  destruct (fetch_all rest st1) as [[cs' st2] | e] eqn:Hrest;
    simpl in Hrun; [| discriminate].
  injection Hrun as Hcs <-.
  destruct hs as [| h0 hs]; [discriminate |]. injection Hcs as -> ->.
  rewrite fmap_cons in Hnd. simpl in Hnd. apply NoDup_cons in Hnd as [Hfresh Hnd].
  destruct (createProxiedFetch_ok _ _ _ _ _ _ Hc Hok) as (Hok1 & _ & _).
  destruct i as [| i]; simpl in Hh, Hi.
  - injection Hh as <-. injection Hi as <-.
    apply createProxiedFetch_inv in Hc as [[[=] _] | ([= ->] & Hf & Hp)].
    destruct (fetch_all_frame _ _ _ _ Hrest Hok1) as (_ & Hp2 & Hf2).
    split.
    + rewrite Hf2 by assumption. rewrite Hf. apply lookup_insert_eq.
    + apply Hp2. rewrite Hp. now apply list_lookup_middle.
  - now apply (IH _ _ _ Hrest Hok1 Hnd i).
Qed.

(** C2: once N proxied fetches with pairwise distinct ids are outstanding,
    and their responses arrive in any order, the promise of each call is
    settled by the response that carries the id of that call: resolved with
    its payload, or rejected with the error it reports. *)
Theorem responses_reach_their_own_callers (calls : list FetchArgs)
    (st0 st1 : PageState) (hs : list nat) (responses : list BridgeData) :
  table_ok st0 →
  fetch_all calls st0 = Ret (ProxiedFetch <$> hs, st1) →
  NoDup (calls.*2) →
  Forall is_fetch_response responses →
  msg_requestId <$> responses ≡ₚ Some <$> calls.*2 →
  ∀ i h id data,
    hs !! i = Some h → calls.*2 !! i = Some id →
    data ∈ responses → msg_requestId data = Some id →
    promises st1 !! h = Some Pending
    ∧ promises (deliver_all responses st1) !! h = Some (completion data).
Proof.
  intros Hok Hrun Hnd Hall Hperm i h id data Hh Hi Hin Hid.
  destruct (fetch_all_pending _ _ _ _ Hrun Hok Hnd i h id Hh Hi) as [Hp Hpend].
  split; [assumption |].
  destruct (fetch_all_frame _ _ _ _ Hrun Hok) as (Hok1 & _ & _).
  apply (deliver_all_own responses st1 id h data); try assumption.
  rewrite Hperm. apply NoDup_fmap_2; [| assumption].
  intros x y [=]. assumption.
Qed.

End FetchFacts.

(** ** Eligibility *)

Section EligibilityFacts.
Context `{Platform}.
Import Bridge.

Lemma truthy_string_Some (s : string) : truthy_string (Some s) = true ↔ s ≠ "".
Proof.
  unfold truthy_string. destruct (String.eqb_spec s ""); simpl; split; congruence.
Qed.

Lemma truthy_string_true (o : option string) :
  truthy_string o = true ↔ ∃ s, o = Some s ∧ s ≠ "".
Proof.
  destruct o as [s |].
  - rewrite truthy_string_Some. split; [eauto |]. now intros (? & [= <-] & ?).
  - simpl. split; [discriminate | now intros (? & ? & ?)].
Qed.

(** Reading the cache never throws: it gives the configuration when the
    cache holds one, and [null] in every other case. *)
Lemma readCachedConfig_cases (storage : gmap string string) :
  (∃ config, cached_config storage config
             ∧ readCachedConfig storage = Ret (Some config))
  ∨ (cache_absent_or_malformed storage ∧ readCachedConfig storage = Ret None).
Proof.
  unfold readCachedConfig, cached_config, cache_absent_or_malformed.
  destruct (storage !! PAGE_SPY_EXTENSION_CONFIG_KEY) as [raw |] eqn:Hraw;
    [| right; easy].
  destruct (truthy_string (Some raw)) eqn:Ht; simpl.
  - apply truthy_string_Some in Ht.
    destruct (JSON_parse raw) as [[| t | config] | e] eqn:Hparse; simpl.
    + right. auto.
    + right. split; [| reflexivity]. right. right. right. eauto.
    + left. exists config. split; [| reflexivity]. eauto.
    + right. split; [| reflexivity]. right. left. now exists e.
  - right. split; [| reflexivity]. left.
    destruct (decide (raw = "")) as [| Hne]; [assumption |].
    apply truthy_string_Some in Hne. congruence.
Qed.

Lemma cached_config_unique storage config config' :
  cached_config storage config → cached_config storage config' → config = config'.
Proof. intros (raw & Hr & _ & Hp) (raw' & Hr' & _ & Hp'). congruence. Qed.

Lemma cached_config_not_malformed storage config :
  cached_config storage config → ¬ cache_absent_or_malformed storage.
Proof.
  intros (raw & Hr & Hne & Hp). unfold cache_absent_or_malformed. rewrite Hr.
  intros [? | [[e He] | [? | [t Ht]]]]; congruence.
Qed.

Lemma isEnabledForCurrentPage_matches config origin :
  isEnabledForCurrentPage (Some config) origin = true ↔ page_matches config origin.
Proof.
  unfold isEnabledForCurrentPage, page_matches. simpl.
  destruct (truthy_string (domainRules config)) eqn:Ht; simpl.
  - apply truthy_string_true in Ht as (rules & Hr & Hne). rewrite Hr. simpl.
    split; [eauto |]. now intros (? & [= <-] & _ & ?).
  - split; [discriminate |]. intros (rules & Hr & Hne & _).
    rewrite Hr in Ht. apply truthy_string_Some in Hne. congruence.
Qed.

Lemma isEnabledForCurrentPage_null origin : isEnabledForCurrentPage None origin = false.
Proof. reflexivity. Qed.

(** Deriving the service host never throws: a parser that throws gives
    [null]. *)
Lemma getTargetHost_returns config : returns (getTargetHost config).
Proof.
  unfold getTargetHost, returns. destruct (negb _); [eauto |].
  destruct (URL_parse _ None) as [u | e]; simpl; [| eauto].
  destruct (URL_parse _ None) as [u' | e]; simpl; eauto.
Qed.

(** [getTargetHost] gives the host derived from the service address, and
    nothing where there is none. *)
Lemma getTargetHost_derives config h :
  getTargetHost (Some config) = Ret (Some h) ∧ h ≠ "" ↔ service_host config h.
Proof.
  unfold getTargetHost, service_host, host_and_path. simpl.
  fold (service_scheme config).
  destruct (truthy_string (serviceAddress config)) eqn:Ht; simpl.
  - apply truthy_string_true in Ht as (addr & Ha & Hne). rewrite Ha. simpl.
    destruct (URL_parse (service_scheme config +:+ addr) None) as [u | e] eqn:Hp;
      simpl.
    + destruct (URL_parse
                  (service_scheme config +:+
                   (if endsWith_slash (pathname u)
                    then host u +:+ slice_0_minus1 (pathname u)
                    else host u +:+ pathname u)) None) as [origin | e]
        eqn:Hp'; simpl.
      * split.
        -- intros [[= <-] Hne']. exists addr, u, origin. auto 10.
        -- intros (addr' & u0 & o0 & [= <-] & _ & Hp0 & Hp0' & <- & Hne').
           rewrite Hp in Hp0. injection Hp0 as <-.
           rewrite Hp' in Hp0'. injection Hp0' as <-. auto.
      * split; [now intros [[=] _] |].
        intros (addr' & u0 & o0 & [= <-] & _ & Hp0 & Hp0' & _).
        rewrite Hp in Hp0. injection Hp0 as <-. congruence.
    + split; [now intros [[=] _] |].
      intros (addr' & u0 & o0 & [= <-] & _ & Hp0 & _). congruence.
  - split; [now intros [[=] _] |]. intros (addr & u & o & Ha & Hne & _).
    rewrite Ha in Ht. apply truthy_string_Some in Hne. congruence.
Qed.

(** Where parsing is stable, the derived host is the host of the service
    URL. *)
Lemma service_host_stable config :
  reparse_stable config → ∀ h, service_host config h ↔ service_url_host config h.
Proof.
  intros Hst h. split.
  - intros (addr & u & origin & Ha & Hne & Hp & Hp' & Hh & Hne').
    exists addr, u. destruct (Hst addr u Ha Hp) as (u' & Hu' & Hsame).
    rewrite Hp' in Hu'. injection Hu' as <-. rewrite <- Hsame. auto.
  - intros (addr & u & Ha & Hne & Hp & Hh & Hne').
    destruct (Hst addr u Ha Hp) as (u' & Hu' & Hsame).
    exists addr, u, u'. rewrite Hsame. auto 10.
Qed.

(** C4: [shouldProxyUrl] never throws; it answers true exactly when the
    cache holds a configuration, the page matches its domain rules, and the
    host of the target is the host derived from its service address; it
    answers false when the cache is absent or malformed, when the page does
    not match, and when the hosts differ. The derived host is the host of
    the service URL (scheme and service address) wherever URL parsing is
    stable at it. *)
Theorem shouldProxyUrl_exactly (targetUrl : URL) (st : PageState) :
  returns (shouldProxyUrl targetUrl st)
  ∧ (shouldProxyUrl targetUrl st = Ret true ↔
     ∃ config h, cached_config (sessionStorage st) config
                 ∧ page_matches config (location_origin st)
                 ∧ service_host config h ∧ host targetUrl = h)
  ∧ (cache_absent_or_malformed (sessionStorage st) →
     shouldProxyUrl targetUrl st = Ret false)
  ∧ (∀ config, cached_config (sessionStorage st) config →
       ¬ page_matches config (location_origin st) →
       shouldProxyUrl targetUrl st = Ret false)
  ∧ (∀ config h, cached_config (sessionStorage st) config →
       service_host config h → host targetUrl ≠ h →
       shouldProxyUrl targetUrl st = Ret false)
  ∧ (∀ config, cached_config (sessionStorage st) config →
       (¬ ∃ h, service_host config h) →
       shouldProxyUrl targetUrl st = Ret false)
  ∧ (∀ config, cached_config (sessionStorage st) config →
       reparse_stable config →
       ∀ h, service_host config h ↔ service_url_host config h).
Proof.
  assert (Hret : returns (shouldProxyUrl targetUrl st)).
  { unfold shouldProxyUrl, returns.
    destruct (readCachedConfig_cases (sessionStorage st))
      as [(config & _ & ->) | [_ ->]]; simpl; [| eauto].
    destruct (negb _); [eauto |].
    destruct (getTargetHost_returns (Some config)) as [o ->]. simpl.
    destruct (negb _); eauto. }
  assert (Hiff : shouldProxyUrl targetUrl st = Ret true ↔
     ∃ config h, cached_config (sessionStorage st) config
                 ∧ page_matches config (location_origin st)
                 ∧ service_host config h ∧ host targetUrl = h).
  { unfold shouldProxyUrl.
    destruct (readCachedConfig_cases (sessionStorage st))
      as [(config & Hcfg & ->) | [Hbad ->]]; simpl.
    - destruct (isEnabledForCurrentPage (Some config) (location_origin st)) eqn:Hen;
        simpl.
      + apply isEnabledForCurrentPage_matches in Hen.
        destruct (getTargetHost_returns (Some config)) as [o Ho]. rewrite Ho. simpl.
        destruct (truthy_string o) eqn:Ht; simpl.
        * apply truthy_string_true in Ht as (h & -> & Hne). simpl. split.
          -- intros [= Heq]. apply String.eqb_eq in Heq.
             exists config, h. split; [assumption |]. split; [assumption |].
             split; [| assumption]. apply getTargetHost_derives. auto.
          -- intros (config' & h' & Hcfg' & _ & Hh' & <-).
             apply getTargetHost_derives in Hh' as [Hh' _].
             rewrite <- (cached_config_unique _ _ _ Hcfg Hcfg') in Hh'.
             rewrite Ho in Hh'. injection Hh' as ->. now rewrite String.eqb_refl.
        * split; [discriminate |].
          intros (config' & h' & Hcfg' & _ & Hh' & _).
          apply getTargetHost_derives in Hh' as [Hh' Hne].
          rewrite <- (cached_config_unique _ _ _ Hcfg Hcfg') in Hh'.
          rewrite Ho in Hh'. injection Hh' as ->.
          apply truthy_string_Some in Hne. congruence.
      + split; [discriminate |]. intros (config' & h' & Hcfg' & Hm & _).
        rewrite <- (cached_config_unique _ _ _ Hcfg Hcfg') in Hm.
        apply isEnabledForCurrentPage_matches in Hm. congruence.
    - split; [discriminate |]. intros (config' & _ & Hcfg' & _).
      now apply cached_config_not_malformed in Hcfg'. }
  assert (Hfalse : shouldProxyUrl targetUrl st ≠ Ret true →
                   shouldProxyUrl targetUrl st = Ret false).
  { destruct Hret as [[|] ->]; congruence. }
  split; [assumption |]. split; [assumption |].
  split; [| split; [| split; [| split]]].
  - intros Hbad. apply Hfalse. rewrite Hiff. intros (config & _ & Hcfg & _).
    now apply cached_config_not_malformed in Hcfg.
  - intros config Hcfg Hno. apply Hfalse. rewrite Hiff.
    intros (config' & _ & Hcfg' & Hm & _).
    now rewrite <- (cached_config_unique _ _ _ Hcfg Hcfg') in Hm.
  - intros config h Hcfg Hh Hne. apply Hfalse. rewrite Hiff.
    intros (config' & h' & Hcfg' & _ & Hh' & Heq).
    rewrite <- (cached_config_unique _ _ _ Hcfg Hcfg') in Hh'.
    apply getTargetHost_derives in Hh as [Hh _].
    apply getTargetHost_derives in Hh' as [Hh' _]. congruence.
  - intros config Hcfg Hno. apply Hfalse. rewrite Hiff.
    intros (config' & h' & Hcfg' & _ & Hh' & _).
    rewrite <- (cached_config_unique _ _ _ Hcfg Hcfg') in Hh'. eauto.
  - intros config _. apply service_host_stable.
Qed.

End EligibilityFacts.

(** ** The relay: fetch *)

Section RelayFacts.
Context `{Relay.Network}.
Import Relay.

Lemma handleProxiedFetch_steps (p : FetchRequest) :
  handleProxiedFetch (Some p) =
    (hs ← rebuilt_headers (fetch_init p);
     res ← fetch (fetch_url p) (relayed_init (fetch_init p) hs);
     body ← res_text res;
     Ret {| status := res_status res; statusText := res_statusText res;
            headers := res_headers res; body := body |}).
Proof. reflexivity. Qed.

(** C7: a fetch-request message gets exactly one reply: the status, status
    text, headers and text of the response when rebuilding the request, the
    fetch and reading the response all succeed, and the message of the error
    when the payload is missing or any of these steps throws. *)
Theorem fetch_request_gets_one_reply (message : RuntimeMessage) :
  message_type message = Some BRIDGE_MESSAGE_TYPE →
  (∃ reply, onMessage (Some message) = [reply])
  ∧ (∀ res, handleProxiedFetch (message_payload message) = Ret res →
            onMessage (Some message) = [ReplyOk res])
  ∧ (∀ e, handleProxiedFetch (message_payload message) = Throw e →
          onMessage (Some message) = [ReplyError e])
  ∧ (message_payload message = None → ∃ e, onMessage (Some message) = [ReplyError e])
  ∧ (∀ p, message_payload message = Some p →
       (∀ e, rebuilt_headers (fetch_init p) = Throw e →
             onMessage (Some message) = [ReplyError e])
       ∧ (∀ hs, rebuilt_headers (fetch_init p) = Ret hs →
            (∀ e, fetch (fetch_url p) (relayed_init (fetch_init p) hs) = Throw e →
                  onMessage (Some message) = [ReplyError e])
            ∧ (∀ res, fetch (fetch_url p) (relayed_init (fetch_init p) hs) = Ret res →
                 (∀ e, res_text res = Throw e →
                       onMessage (Some message) = [ReplyError e])
                 ∧ (∀ text, res_text res = Ret text →
                      onMessage (Some message) =
                        [ReplyOk {| status := res_status res;
                                    statusText := res_statusText res;
                                    headers := res_headers res;
                                    body := text |}])))).
Proof.
  intros Htype. unfold onMessage. rewrite Htype. simpl.
  split; [destruct (handleProxiedFetch _); eauto |].
  split; [now intros res -> |]. split; [now intros e -> |].
  split; [intros ->; simpl; eauto |].
  intros p ->. rewrite handleProxiedFetch_steps.
  split; [now intros e -> |]. intros hs ->. simpl.
  split; [now intros e -> |]. intros res ->. simpl.
  split; [now intros e -> | now intros text ->].
Qed.

(** ** The relay: sockets *)

Lemma table_get_delete_eq k (t : SocketTable) : table_get k (table_delete k t) = None.
Proof.
  induction t as [| [k' ws] t IH]; simpl; [reflexivity |].
  destruct (decide (k = k')) as [| Hne]; [assumption |].
  simpl. now rewrite decide_False.
Qed.

Lemma table_get_delete_ne k k' (t : SocketTable) :
  k ≠ k' → table_get k (table_delete k' t) = table_get k t.
Proof.
  intros Hne. induction t as [| [k0 ws] t IH]; simpl; [reflexivity |].
  destruct (decide (k' = k0)) as [<- | Hne'].
  - now rewrite decide_False.
  - simpl. now rewrite IH.
Qed.

(** An object of the table changed in place sits under the same keys. *)
Lemma table_get_mutated k k0 ws' (t : SocketTable) :
  table_get k ((λ e, if decide (e.1 = k0) then (e.1, ws') else e) <$> t)
  = if decide (k = k0) then (λ _, ws') <$> table_get k t else table_get k t.
Proof.
  destruct (decide (k = k0)) as [-> | Hne];
    induction t as [| [k1 ws] t IH]; try reflexivity;
    rewrite fmap_cons; cbn [fst];
    destruct (decide (k1 = k0)) as [-> | Hne1]; cbn [table_get].
  - now rewrite !decide_True.
  - rewrite !decide_False by congruence. apply IH.
  - rewrite !decide_False by assumption. apply IH.
  - destruct (decide (k = k1)); [reflexivity | apply IH].
Qed.

Lemma close_real_effects k ws code reason st :
  let r := close_real k ws code reason st in
  port_posted r.1 = port_posted st
  ∧ warnings r.1 = warnings st
  ∧ closeCalls r.1 =
      closeCalls st ++ [{| close_socket := ws; close_code := code;
                           close_reason := reason;
                           close_threw := threw (WebSocket_close ws code reason) |}]
  ∧ (table_get k (sockets r.1) = None ↔ table_get k (sockets st) = None)
  ∧ (∀ k', k' ≠ k → table_get k' (sockets r.1) = table_get k' (sockets st))
  ∧ length (sockets r.1) = length (sockets st)
  ∧ (r.2 = None ↔ returns (WebSocket_close ws code reason))
  ∧ (∀ e, r.2 = Some e ↔ WebSocket_close ws code reason = Throw e).
Proof.
  unfold close_real, returns.
  destruct (WebSocket_close ws code reason) as [ws' | e]; simpl; split_and!;
    try reflexivity.
  - rewrite table_get_mutated, decide_True by reflexivity.
    now destruct (table_get k (sockets st)).
  - intros k' Hne. rewrite table_get_mutated. now rewrite decide_False.
  - apply length_fmap.
  - split; eauto.
  - intros e. split; discriminate.
  - split; [discriminate | intros [? ?]; discriminate].
  - intros e0. split; congruence.
Qed.

Lemma cleanupSocket_effects k st :
  table_get k (sockets (cleanupSocket k st)) = None
  ∧ port_posted (cleanupSocket k st) = port_posted st
  ∧ (∀ k', k' ≠ k →
       table_get k' (sockets (cleanupSocket k st)) = table_get k' (sockets st))
  ∧ (table_get k (sockets st) = None → cleanupSocket k st = st).
Proof.
  unfold cleanupSocket. destruct (table_get k (sockets st)) as [ws |] eqn:Hget.
  - pose proof (close_real_effects k ws None None st) as (Hp & _ & _ & _ & Hk & _).
    destruct (close_real k ws None None st) as [st1 [e |]]; simpl in *.
    + split; [apply table_get_delete_eq |]. split; [assumption |].
      split; [| discriminate]. intros k' Hne.
      rewrite table_get_delete_ne by assumption. now apply Hk.
    + split; [apply table_get_delete_eq |]. split; [assumption |].
      split; [| discriminate]. intros k' Hne.
      rewrite table_get_delete_ne by assumption. now apply Hk.
  - easy.
Qed.

(** C8: after a ws-close message is handled, the id it names is not in the
    socket table, whether the close returned, threw or found no socket;
    a close that throws is reported to the page as an error event, and the
    sockets under other ids stay in the table. *)
Theorem ws_close_removes_socket (msg : PortMessage) (st : PortState) :
  pm_type msg = Some WS_CLOSE →
  let st' := port_onMessage (Some msg) st in
  table_get (pm_wsId msg) (sockets st') = None
  ∧ (∀ ws e, table_get (pm_wsId msg) (sockets st) = Some ws →
       WebSocket_close ws (pm_code msg) (pm_reason msg) = Throw e →
       port_posted st' =
         port_posted st
         ++ [error_message (pm_wsId msg) (message_or e "Close WebSocket failed")])
  ∧ (∀ k, k ≠ pm_wsId msg → table_get k (sockets st') = table_get k (sockets st))
  ∧ (table_get (pm_wsId msg) (sockets st) = None → st' = st).
Proof.
  intros Htype st'. subst st'. unfold port_onMessage. rewrite Htype. simpl.
  set (k := pm_wsId msg).
  destruct (table_get k (sockets st)) as [ws |] eqn:Hget.
  - pose proof (close_real_effects k ws (pm_code msg) (pm_reason msg) st)
      as (Hp & _ & _ & _ & Hk & _ & _ & Hthrow).
    destruct (close_real k ws (pm_code msg) (pm_reason msg) st) as [st1 [e |]];
      simpl in *.
    + destruct (cleanupSocket_effects k
                  (postMessage (error_message k (message_or e "Close WebSocket failed")) st1))
        as (Hnone & Hposted & Hothers & _).
      split; [assumption |]. split; [| split; [| discriminate]].
      * intros ws0 e0 [= <-] He0. rewrite Hposted. simpl. rewrite Hp.
        apply Hthrow in He0. now injection He0 as ->.
      * intros k' Hne. rewrite Hothers by assumption. simpl. now apply Hk.
    + destruct (cleanupSocket_effects k st1) as (Hnone & Hposted & Hothers & _).
      split; [assumption |]. split; [| split; [| discriminate]].
      * intros ws0 e0 [= <-] He0. apply Hthrow in He0. discriminate.
      * intros k' Hne. rewrite Hothers by assumption. now apply Hk.
  - destruct (cleanupSocket_effects k st) as (Hnone & _ & Hothers & Hsame).
    split; [assumption |]. split; [discriminate |]. split; [assumption |].
    intros _. now apply Hsame.
Qed.

Lemma foldl_close_on_disconnect (l : SocketTable) : ∀ st,
  closeCalls (foldl close_on_disconnect st l)
  = closeCalls st ++ (disconnect_call <$> l).
Proof.
  induction l as [| e l IH]; intros st; simpl; [now rewrite app_nil_r |].
  rewrite IH. rewrite (cons_middle (disconnect_call e)), app_assoc. f_equal.
  unfold close_on_disconnect.
  pose proof (close_real_effects e.1 e.2 None None st) as (_ & _ & Hc & _).
  destruct (close_real e.1 e.2 None None st) as [st1 [err |]]; simpl in *;
    now rewrite Hc.
Qed.

(** C9: when the port disconnects, [close()] is called on every socket of
    the table, in the order of the table and whether or not an earlier call
    threw, and the table is empty afterwards. *)
Theorem disconnect_closes_every_socket (st : PortState) :
  let st' := port_onDisconnect st in
  sockets st' = []
  ∧ closeCalls st' = closeCalls st ++ (disconnect_call <$> sockets st)
  ∧ (∀ k ws, (k, ws) ∈ sockets st →
       ∃ call, call ∈ closeCalls st' ∧ close_socket call = ws
               ∧ close_threw call = threw (WebSocket_close ws None None)).
Proof.
  assert (Hcalls : closeCalls (port_onDisconnect st)
                   = closeCalls st ++ (disconnect_call <$> sockets st)).
  { unfold port_onDisconnect. simpl. apply foldl_close_on_disconnect. }
  intros st'. subst st'. split; [reflexivity |].
  split; [assumption |].
  intros k ws Hin. exists (disconnect_call (k, ws)).
  split; [| split; reflexivity].
  rewrite Hcalls. apply elem_of_app. right.
  now apply (list_elem_of_fmap_2 disconnect_call) in Hin.
Qed.

End RelayFacts.

(** ** The theorems at the sample inputs *)

(** The cached service address is [svc.local:443/room/] with TLS: a fetch to
    the host [svc.local] is proxied, a fetch to another host is not, and
    without a cache no fetch is; the derived host is the host of the service
    URL. *)
Lemma shouldProxyUrl_exactly_witness :
  (cache_absent_or_malformed (H := port_platform) ∅
   ∧ Bridge.shouldProxyUrl (H := port_platform)
       (sample_url "svc.local" "/api") (sample_page ∅) = Ret false)
  ∧ Bridge.shouldProxyUrl (H := port_platform)
      (sample_url "svc.local" "/api") (sample_page sample_storage) = Ret true
  ∧ Bridge.shouldProxyUrl (H := port_platform)
      (sample_url "svc.local:443" "/api") (sample_page sample_storage) = Ret false
  ∧ (reparse_stable (H := port_platform) port_config
     ∧ service_url_host (H := port_platform) port_config "svc.local").
Proof.
  assert (Hcfg : cached_config (H := port_platform) sample_storage port_config).
  { exists "{config}". split; [reflexivity | split; [discriminate | reflexivity]]. }
  assert (Hhost : service_host (H := port_platform) port_config "svc.local").
  { exists "svc.local:443/room/",
      {| host := "svc.local"; pathname := "/room/"; href := "https://svc.local/room/" |},
      {| host := "svc.local"; pathname := "/room"; href := "https://svc.local/room" |}.
    split; [reflexivity |]. split; [discriminate |]. split; [reflexivity |].
    split; [reflexivity |]. split; [reflexivity | discriminate]. }
  assert (Hst : reparse_stable (H := port_platform) port_config).
  { intros addr u Ha Hp. injection Ha as <-. injection Hp as <-.
    exists {| host := "svc.local"; pathname := "/room";
              href := "https://svc.local/room" |}.
    split; reflexivity. }
  pose proof (shouldProxyUrl_exactly (H := port_platform)
                (sample_url "svc.local" "/api") (sample_page ∅))
    as (_ & _ & Habsent & _).
  pose proof (shouldProxyUrl_exactly (H := port_platform)
                (sample_url "svc.local" "/api") (sample_page sample_storage))
    as (_ & Hiff & _ & _ & _ & _ & Hstable).
  pose proof (shouldProxyUrl_exactly (H := port_platform)
                (sample_url "svc.local:443" "/api") (sample_page sample_storage))
    as (_ & _ & _ & _ & Hdiffer & _).
  split.
  - assert (Hbad : cache_absent_or_malformed (H := port_platform) ∅)
      by (vm_compute; exact I).
    split; [exact Hbad | exact (Habsent Hbad)].
  - split; [| split; [| split]].
    + apply Hiff. exists port_config, "svc.local".
      split; [exact Hcfg |].
      split; [exists "*"; split; [reflexivity | split; [discriminate | reflexivity]] |].
      split; [exact Hhost | reflexivity].
    + apply (Hdiffer port_config "svc.local" Hcfg Hhost). discriminate.
    + exact Hst.
    + exact (proj1 (Hstable port_config Hcfg Hst "svc.local") Hhost).
Defined.


(** Two fetches are outstanding and the responses come back in reverse
    order: each promise holds the response of its own request. *)
Lemma responses_reach_their_own_callers_witness :
  Bridge.promises
    (deliver_all [sample_response "fetch_b" "second"; sample_response "fetch_a" "first"]
       sample_page_pending) !! 0%nat
  = Some (completion (sample_response "fetch_a" "first")).
Proof.
  refine (proj2
    (responses_reach_their_own_callers (H := sample_platform)
       sample_calls (sample_page sample_storage) sample_page_pending [0; 1]%nat
       [sample_response "fetch_b" "second"; sample_response "fetch_a" "first"]
       _ _ _ _ _ 0%nat 0%nat "fetch_a" (sample_response "fetch_a" "first")
       _ _ _ _)).
  - split; intros *; simpl; rewrite lookup_empty; discriminate.
  - vm_compute. reflexivity.
  - simpl. apply NoDup_cons. split; [| apply NoDup_singleton].
    intros Hin. apply list_elem_of_singleton in Hin. discriminate.
  - repeat constructor.
  - simpl. apply perm_swap.
  - reflexivity.
  - reflexivity.
  - apply elem_of_cons. right. apply list_elem_of_here.
  - reflexivity.
Defined.

(** The response for a request removes its entry; a second one finds none
    and changes nothing. *)
Lemma duplicate_response_ignored_witness :
  is_fetch_response (sample_response "fetch_a" "first")
  ∧ Bridge.pendingFetches
      (Bridge.handleBridgeMessage (Some (sample_response "fetch_a" "first"))
         sample_page_pending) !! "fetch_a" = None
  ∧ Bridge.handleBridgeMessage (Some (sample_response "fetch_a" "again"))
      (Bridge.handleBridgeMessage (Some (sample_response "fetch_a" "first"))
         sample_page_pending)
    = Bridge.handleBridgeMessage (Some (sample_response "fetch_a" "first"))
        sample_page_pending.
Proof.
  assert (Hresp : ∀ text, is_fetch_response (sample_response "fetch_a" text))
    by (intros text; split; reflexivity).
  pose proof (duplicate_response_ignored sample_page_pending
                (sample_response "fetch_a" "first") "fetch_a"
                (Hresp "first") eq_refl) as (_ & Hgone & _ & _ & Hdup).
  split; [apply Hresp |]. split; [exact Hgone |].
  exact (Hdup (sample_response "fetch_a" "again") (Hresp "again") eq_refl).
Defined.

(** [send] on a connecting socket throws, on an open one it posts. *)
Lemma send_throws_iff_not_open_witness :
  (Bridge.readyState (sample_socket Bridge.CONNECTING) ≠ Bridge.OPEN
   ∧ throws (Bridge.send (sample_socket Bridge.CONNECTING) (DataString "ping") []))
  ∧ (Bridge.readyState (sample_socket Bridge.OPEN) = Bridge.OPEN
     ∧ Bridge.send (sample_socket Bridge.OPEN) (DataString "ping") []
       = Ret [Bridge.PostWsSend "ws_1" (DataString "ping")]).
Proof.
  split.
  - assert (Hne : Bridge.readyState (sample_socket Bridge.CONNECTING) ≠ Bridge.OPEN)
      by (vm_compute; discriminate).
    split; [exact Hne |].
    exact (proj2 (proj1 (send_throws_iff_not_open
                           (sample_socket Bridge.CONNECTING) (DataString "ping") []))
             Hne).
  - split; [reflexivity |].
    exact (proj1 (proj2 (send_throws_iff_not_open
                           (sample_socket Bridge.OPEN) (DataString "ping") [])
                    eq_refl)).
Defined.

(** C6, the claim as stated fails: a second [close] right after the first is
    not a no-op, it posts a second ws-close message. *)
Lemma second_close_posts_again :
  Bridge.close
    (Bridge.close (sample_socket Bridge.OPEN) None None []).1 None None
    (Bridge.close (sample_socket Bridge.OPEN) None None []).2
  ≠ Bridge.close (sample_socket Bridge.OPEN) None None [].
Proof. vm_compute. discriminate. Qed.

(** [close] on a closed socket does nothing, on an open one it posts. *)
Lemma close_by_ready_state_witness :
  (Bridge.readyState (sample_socket Bridge.CLOSED) = Bridge.CLOSED
   ∧ Bridge.close (sample_socket Bridge.CLOSED) None None []
     = (sample_socket Bridge.CLOSED, []))
  ∧ (Bridge.readyState (sample_socket Bridge.OPEN) ≠ Bridge.CLOSED
     ∧ Bridge.readyState (Bridge.close (sample_socket Bridge.OPEN) None None []).1
       = Bridge.CLOSING).
Proof.
  split.
  - split; [reflexivity |].
    exact (proj1 (close_by_ready_state (sample_socket Bridge.CLOSED) None None [])
             eq_refl).
  - assert (Hne : Bridge.readyState (sample_socket Bridge.OPEN) ≠ Bridge.CLOSED)
      by (vm_compute; discriminate).
    split; [exact Hne |].
    exact (proj2 (proj1 (proj2 (close_by_ready_state
                                  (sample_socket Bridge.OPEN) None None []))
                    Hne)).
Defined.

(** An error event leaves an open socket open and in the table. *)
Lemma handleRemoteEvent_frame_witness :
  (Bridge.handleRemoteEvent (sample_socket Bridge.OPEN) (sample_event "error")
     {[ "ws_1" := 0%nat ]} []).1.1 = sample_socket Bridge.OPEN
  ∧ (Bridge.handleRemoteEvent (sample_socket Bridge.OPEN) (sample_event "error")
       {[ "ws_1" := 0%nat ]} []).1.2 = {[ "ws_1" := 0%nat ]}.
Proof.
  refine (proj1 (handleRemoteEvent_frame (sample_socket Bridge.OPEN)
                   (sample_event "error") {[ "ws_1" := 0%nat ]} []) _ _);
    vm_compute; discriminate.
Defined.

(** A fetch that fails is answered with its error. *)
Lemma fetch_request_gets_one_reply_witness :
  Relay.message_type sample_fetch_request = Some Relay.BRIDGE_MESSAGE_TYPE
  ∧ Relay.onMessage (H := failing_network) (Some sample_fetch_request)
    = [Relay.ReplyError "Failed to fetch"].
Proof.
  split; [reflexivity |].
  exact (proj1 (proj2 (proj2 (fetch_request_gets_one_reply (H := failing_network)
                                sample_fetch_request eq_refl)))
           "Failed to fetch" eq_refl).
Defined.

(** A ws-close whose close throws still removes the socket. *)
Lemma ws_close_removes_socket_witness :
  Relay.pm_type sample_ws_close = Some Relay.WS_CLOSE
  ∧ Relay.table_get (Some "ws_1")
      (Relay.sockets
         (Relay.port_onMessage (H := failing_network) (Some sample_ws_close) sample_port))
    = None.
Proof.
  split; [reflexivity |].
  exact (proj1 (ws_close_removes_socket (H := failing_network)
                  sample_ws_close sample_port eq_refl)).
Defined.

(** On disconnect the second socket is closed although closing the first
    threw. *)
Lemma disconnect_closes_every_socket_witness :
  (Some "ws_2", sample_real_socket) ∈ Relay.sockets sample_port
  ∧ ∃ call,
      call ∈ Relay.closeCalls (Relay.port_onDisconnect (H := failing_network) sample_port)
      ∧ Relay.close_socket call = sample_real_socket
      ∧ Relay.close_threw call
        = threw (Relay.WebSocket_close (Network := failing_network)
                   sample_real_socket None None).
Proof.
  assert (Hin : (Some "ws_2", sample_real_socket) ∈ Relay.sockets sample_port)
    by (apply elem_of_cons; right; apply list_elem_of_here).
  split; [exact Hin |].
  exact (proj2 (proj2 (disconnect_closes_every_socket (H := failing_network) sample_port))
           (Some "ws_2") sample_real_socket Hin).
Defined.

(** ** The scenarios of the specification *)

(** A fetch of [https://svc.local/api] is proxied: a pending promise is
    registered under the request id and a fetch-request is posted. *)
Example scenario_fetch_proxied :
  Bridge.createProxiedFetch (H := sample_platform)
    (Bridge.InputString "https://svc.local/api") None "fetch_a"
    (sample_page sample_storage)
  = Ret (Bridge.ProxiedFetch 0,
         {| Bridge.pendingFetches := {[ "fetch_a" := 0%nat ]};
            Bridge.promises := [Bridge.Pending];
            Bridge.socketMap := ∅; Bridge.objects := [];
            Bridge.sessionStorage := sample_storage;
            Bridge.location_origin := "https://app.example";
            Bridge.location_href := "https://app.example/";
            Bridge.posted :=
              [Bridge.PostFetch "fetch_a" "https://svc.local/api"
                 {| init_headers := None; init_method := None;
                    init_credentials := None; init_body := None |}];
            Bridge.observed := [] |}).
Proof. vm_compute. reflexivity. Qed.

(** The response [{ status: 200, body: "ok" }] reaches the caller as it is. *)
Example scenario_response_delivered :
  Bridge.createProxiedFetch_resume (Api := sample_page_api)
    (completion (sample_response "fetch_a" "ok"))
  = Some (Ret {| Bridge.response_body := "ok"; Bridge.response_status := 200;
                 Bridge.response_statusText := "OK";
                 Bridge.response_headers := [] |}).
Proof. reflexivity. Qed.

(** A fetch of [https://other.example/] goes to the native [fetch]. *)
Example scenario_fetch_passed_through :
  Bridge.createProxiedFetch (H := sample_platform)
    (Bridge.InputString "https://other.example/") None "fetch_a"
    (sample_page sample_storage)
  = Ret (Bridge.NativeFetch (Bridge.InputString "https://other.example/") None,
         sample_page sample_storage).
Proof. vm_compute. reflexivity. Qed.

(** With [binaryType] set to [arraybuffer], a binary message reaches
    [onmessage] as an array buffer. *)
Example scenario_binary_message :
  let ws :=
    {| Bridge.readyState := Bridge.OPEN; Bridge.url := "wss://svc.local/ws";
       Bridge.protocol := ""; Bridge.binaryType := "arraybuffer";
       Bridge.wsId := "ws_1"; Bridge.onopen := None;
       Bridge.onmessage := Some 3%nat; Bridge.onerror := None;
       Bridge.onclose := None |} in
  let payload :=
    Bridge.PayloadEvent
      {| evt_wsId := Some "ws_1"; evt_event := Some "message";
         evt_data := DataUint8Array (Uint8Array_of [x01; x02]);
         evt_code := None; evt_reason := None; evt_wasClean := None;
         evt_error := None |} in
  (Bridge.handleRemoteEvent ws payload ∅ []).2
  = [Bridge.HandlerCalled 3 "ws_1" (Bridge.EventMessage (DataArrayBuffer [x01; x02]));
     Bridge.EventDispatched "ws_1" (Bridge.EventMessage (DataArrayBuffer [x01; x02]))].
Proof. reflexivity. Qed.

(** A socket opened, closed by the page and closed by the relay: the second
    [close] finds it closed and posts nothing more. *)
Example scenario_close_after_close_event :
  let st0 :=
    {| Bridge.pendingFetches := ∅; Bridge.promises := [];
       Bridge.socketMap := {[ "ws_1" := 0%nat ]};
       Bridge.objects := [sample_socket Bridge.OPEN];
       Bridge.sessionStorage := ∅;
       Bridge.location_origin := "https://app.example";
       Bridge.location_href := "https://app.example/";
       Bridge.posted := []; Bridge.observed := [] |} in
  let event :=
    {| Bridge.msg_scope := Some Bridge.BRIDGE_SCOPE;
       Bridge.msg_type := Some Bridge.WS_EVENT;
       Bridge.msg_requestId := None;
       Bridge.msg_payload := sample_event "close";
       Bridge.msg_error := None |} in
  let st1 := Bridge.call_close 0 None None st0 in
  let st2 := Bridge.handleBridgeMessage (Some event) st1 in
  let st3 := Bridge.call_close 0 None None st2 in
  Bridge.posted st1 = [Bridge.PostWsClose "ws_1" None None]
  ∧ Bridge.readyState <$> Bridge.objects st1 !! 0%nat = Some Bridge.CLOSING
  ∧ Bridge.readyState <$> Bridge.objects st2 !! 0%nat = Some Bridge.CLOSED
  ∧ Bridge.socketMap st2 !! "ws_1" = None
  ∧ st3 = st2.
Proof. vm_compute. repeat split; reflexivity. Qed.

(** ** The page's message handler on a shared bus *)

Section BusFacts.
Import Bridge.

Lemma is_string_true (value : option string) (s : string) :
  is_string value s = true ↔ value = Some s.
Proof.
  destruct value as [v |]; simpl; [| split; discriminate].
  rewrite String.eqb_eq. split; congruence.
Qed.

Lemma is_string_false (value : option string) (s : string) :
  is_string value s = false ↔ value ≠ Some s.
Proof.
  rewrite <- is_string_true. destruct (is_string value s); split; congruence.
Qed.

Lemma handleSocketEvent_other data st :
  msg_type data ≠ Some WS_EVENT → handleSocketEvent data st = st.
Proof.
  intros Ht. unfold handleSocketEvent.
  apply is_string_false in Ht. now rewrite Ht.
Qed.

Lemma with_sockets_same (st : PageState) :
  with_sockets (socketMap st) (objects st) (posted st) (observed st) st = st.
Proof. now destruct st. Qed.

(** X7: Messages that are not responses or events of the bridge leave the page
    as it is: no data, another scope, another type, and the requests the
    page itself posts on the window, which its own listener receives too. *)
Theorem foreign_messages_ignored (st : PageState) :
  handleBridgeMessage None st = st
  ∧ (∀ data, msg_scope data ≠ Some BRIDGE_SCOPE →
             handleBridgeMessage (Some data) st = st)
  ∧ (∀ data, msg_type data ≠ Some BRIDGE_FETCH_RESPONSE →
             msg_type data ≠ Some WS_EVENT →
             handleBridgeMessage (Some data) st = st)
  ∧ (∀ m, handleBridgeMessage (Some (posted_echo m)) st = st).
Proof.
  assert (Htype : ∀ data, msg_type data ≠ Some BRIDGE_FETCH_RESPONSE →
            msg_type data ≠ Some WS_EVENT →
            handleBridgeMessage (Some data) st = st).
  { intros data Hr He. unfold handleBridgeMessage.
    destruct (negb _); [reflexivity |].
    apply is_string_false in Hr. rewrite Hr.
    now apply handleSocketEvent_other. }
  split_and!; [reflexivity | | assumption |].
  - intros data Hs. unfold handleBridgeMessage.
    apply is_string_false in Hs. now rewrite Hs.
  - intros m. apply Htype; destruct m; discriminate.
Qed.

(** X8: An event for a socket id that is not in the table is dropped. *)
Theorem event_for_unknown_socket_dropped (st : PageState) (data : BridgeData) :
  is_socket_event data →
  payload_wsId (msg_payload data) ≫= (socketMap st !!.) = None →
  handleBridgeMessage (Some data) st = st.
Proof.
  intros [Hs Ht] Hnone. unfold handleBridgeMessage. rewrite Hs, Ht. simpl.
  unfold handleSocketEvent. rewrite Ht. simpl. now rewrite Hnone.
Qed.

Lemma handleSocketEvent_frame data st :
  let st' := handleSocketEvent data st in
  pendingFetches st' = pendingFetches st ∧ promises st' = promises st
  ∧ sessionStorage st' = sessionStorage st
  ∧ location_origin st' = location_origin st
  ∧ location_href st' = location_href st
  ∧ posted st' = posted st.
Proof.
  unfold handleSocketEvent. destruct (is_string _ _); [| easy].
  destruct (_ ≫= _) as [ref |]; [| easy].
  destruct (objects st !! ref) as [ws |]; [| easy].
  now destruct (handleRemoteEvent _ _ _ _) as [[? ?] ?].
Qed.

(** X9: The handler never posts and never touches the session storage or the
    location; a fetch response leaves the sockets and what they showed the
    page alone, a socket event leaves the pending fetches and their promises
    alone. *)
Theorem tables_do_not_interfere (event_data : option BridgeData) (st : PageState) :
  let st' := handleBridgeMessage event_data st in
  (posted st' = posted st ∧ sessionStorage st' = sessionStorage st
   ∧ location_origin st' = location_origin st
   ∧ location_href st' = location_href st)
  ∧ (∀ data, event_data = Some data → is_fetch_response data →
       socketMap st' = socketMap st ∧ objects st' = objects st
       ∧ observed st' = observed st)
  ∧ (∀ data, event_data = Some data → is_socket_event data →
       pendingFetches st' = pendingFetches st ∧ promises st' = promises st).
Proof.
  simpl. split; [| split].
  - destruct event_data as [data |]; [| easy]. unfold handleBridgeMessage.
    destruct (negb _); [easy |].
    destruct (is_string (msg_type data) BRIDGE_FETCH_RESPONSE).
    + destruct (_ ≫= _) as [h |]; [| easy].
      destruct (truthy_string _); [easy |].
      pose proof (handleSocketEvent_frame data
        (with_fetches
           match msg_requestId data with
           | Some id => delete id (pendingFetches st)
           | None => pendingFetches st
           end
           (settle h (Resolved (msg_payload data)) (promises st)) st))
        as (_ & _ & Hs & Ho & Hh & Hp).
      simpl in *. easy.
    + pose proof (handleSocketEvent_frame data st) as (_ & _ & Hs & Ho & Hh & Hp).
      easy.
  - intros data -> [Hs Ht]. unfold handleBridgeMessage. rewrite Hs, Ht. simpl.
    destruct (_ ≫= _) as [h |]; [| easy].
    destruct (truthy_string _); [easy |].
    now rewrite handleSocketEvent_response.
  - intros data -> [Hs Ht]. unfold handleBridgeMessage. rewrite Hs, Ht. simpl.
    pose proof (handleSocketEvent_frame data st) as (Hf & Hp & _). easy.
Qed.

Lemma table_ok_handle (event_data : option BridgeData) (st : PageState) :
  table_ok st → table_ok (handleBridgeMessage event_data st).
Proof.
  intros Hok. destruct event_data as [data |]; [| assumption].
  unfold handleBridgeMessage.
  destruct (negb _); [assumption |].
  destruct (is_string (msg_type data) BRIDGE_FETCH_RESPONSE).
  - assert (Hdel : ∀ ps, length ps = length (promises st) →
              table_ok (with_fetches
                          match msg_requestId data with
                          | Some id => delete id (pendingFetches st)
                          | None => pendingFetches st
                          end ps st)).
    { intros ps Hlen. destruct (msg_requestId data) as [id |].
      - now apply table_ok_delete.
      - destruct Hok as [Hb Hi]. split; simpl; [| assumption].
        intros id h Hl. rewrite Hlen. eauto. }
    destruct (_ ≫= _) as [h |]; [| now apply Hdel].
    destruct (truthy_string _); [apply Hdel, settle_length |].
    pose proof (Hdel _ (settle_length h (Resolved (msg_payload data)) (promises st)))
      as Hok'.
    revert Hok'. generalize (with_fetches
      match msg_requestId data with
      | Some id => delete id (pendingFetches st)
      | None => pendingFetches st
      end (settle h (Resolved (msg_payload data)) (promises st)) st).
    intros st1 Hok1. unfold table_ok.
    now rewrite !(proj1 (handleSocketEvent_fetches data st1)),
                !(proj2 (handleSocketEvent_fetches data st1)).
  - unfold table_ok.
    now rewrite !(proj1 (handleSocketEvent_fetches data st)),
                !(proj2 (handleSocketEvent_fetches data st)).
Qed.

(** X6: The consistency of the pending table is kept by every message the
    handler receives and by every call of the proxied fetch. *)
Theorem table_ok_preserved `{Platform} (st : PageState) :
  table_ok st →
  (∀ event_data, table_ok (handleBridgeMessage event_data st))
  ∧ (∀ input init id c st',
       createProxiedFetch input init id st = Ret (c, st') → table_ok st').
Proof.
  intros Hok. split.
  - intros event_data. now apply table_ok_handle.
  - intros input init id c st' Hc.
    now destruct (createProxiedFetch_ok _ _ _ _ _ _ Hc Hok).
Qed.

End BusFacts.

(** ** Pending fetches under arbitrary traffic *)

Section TrafficFacts.
Context `{Platform}.
Import Bridge.

Lemma is_fetch_response_dec (data : BridgeData) :
  is_fetch_response data ∨ ¬ is_fetch_response data.
Proof.
  unfold is_fetch_response.
  destruct (decide (msg_scope data = Some BRIDGE_SCOPE));
    destruct (decide (msg_type data = Some BRIDGE_FETCH_RESPONSE)); tauto.
Qed.

Lemma deliver_not_response st data :
  ¬ is_fetch_response data →
  pendingFetches (deliver st data) = pendingFetches st
  ∧ promises (deliver st data) = promises st.
Proof.
  intros Hno. unfold deliver, handleBridgeMessage.
  destruct (is_string (msg_scope data) BRIDGE_SCOPE) eqn:Hs; simpl; [| easy].
  destruct (is_string (msg_type data) BRIDGE_FETCH_RESPONSE) eqn:Ht.
  - exfalso. apply Hno. split; now apply is_string_true.
  - apply handleSocketEvent_fetches.
Qed.

Lemma deliver_response_table st data :
  is_fetch_response data →
  pendingFetches (deliver st data)
  = match msg_requestId data with
    | Some id => delete id (pendingFetches st)
    | None => pendingFetches st
    end.
Proof.
  intros Hresp. unfold deliver.
  destruct (msg_requestId data ≫= (pendingFetches st !!.)) as [h |] eqn:Hp.
  - destruct (msg_requestId data) as [id |] eqn:Hid; [| discriminate].
    now rewrite (handle_response_pending _ _ _ _ Hresp Hid Hp).
  - rewrite handle_response_unknown by assumption.
    destruct (msg_requestId data) as [id |]; [| reflexivity].
    simpl in Hp. now rewrite delete_id.
Qed.

Lemma deliver_all_lookup (messages : list BridgeData) (st : PageState)
    (id : string) :
  (answered messages id → pendingFetches (deliver_all messages st) !! id = None)
  ∧ (¬ answered messages id →
     pendingFetches (deliver_all messages st) !! id = pendingFetches st !! id).
Proof.
  revert st. induction messages as [| d rest IH]; intros st.
  { split; [intros (? & Hin & _); now apply elem_of_nil in Hin | reflexivity]. }
  simpl. destruct (IH (deliver st d)) as [IHyes IHno].
  assert (Hrest : answered rest id ∨ ¬ answered rest id).
  { destruct (decide (Some id ∈ msg_requestId <$>
                        filter (λ x, msg_scope x = Some BRIDGE_SCOPE
                                     ∧ msg_type x = Some BRIDGE_FETCH_RESPONSE) rest))
      as [Hin | Hout].
    - left. apply list_elem_of_fmap in Hin as (x & Hx & Hin).
      apply list_elem_of_filter in Hin as [Hresp Hin]. exists x. easy.
    - right. intros (x & Hin & Hresp & Hx). apply Hout.
      apply list_elem_of_fmap. exists x. split; [easy |].
      now apply list_elem_of_filter. }
  split.
  - intros (x & Hin & Hresp & Hx).
    destruct Hrest as [Hyes | Hno]; [now apply IHyes |].
    rewrite IHno by assumption.
    apply elem_of_cons in Hin as [-> | Hin]; [| exfalso; apply Hno; now exists x].
    rewrite deliver_response_table, Hx by assumption. apply lookup_delete_eq.
  - intros Hno.
    assert (Hno' : ¬ answered rest id).
    { intros (x & Hin & Hx). apply Hno. exists x. split; [| assumption].
      now apply elem_of_cons; right. }
    rewrite IHno by assumption.
    destruct (is_fetch_response_dec d) as [Hresp | Hother].
    + rewrite deliver_response_table by assumption.
      destruct (msg_requestId d) as [id' |] eqn:Hid'; [| reflexivity].
      apply lookup_delete_ne. intros ->. apply Hno. exists d.
      split; [apply list_elem_of_here | easy].
    + now rewrite (proj1 (deliver_not_response st d Hother)).
Qed.

(** X5: Whatever arrives on the bus, the pending table afterwards holds exactly
    the entries whose response was not among the messages; once every
    pending request has been answered, the table is empty. *)
Theorem pending_table_after_traffic (messages : list BridgeData) (st : PageState) :
  (∀ id, answered messages id →
         pendingFetches (deliver_all messages st) !! id = None)
  ∧ (∀ id, ¬ answered messages id →
           pendingFetches (deliver_all messages st) !! id = pendingFetches st !! id)
  ∧ ((∀ id, is_Some (pendingFetches st !! id) → answered messages id) →
     pendingFetches (deliver_all messages st) = ∅).
Proof.
  split; [intros id; apply deliver_all_lookup |].
  split; [intros id; apply deliver_all_lookup |].
  intros Hall. apply map_empty. intros id.
  destruct (deliver_all_lookup messages st id) as [Hyes Hno].
  destruct (pendingFetches st !! id) as [h |] eqn:Hp.
  - apply Hyes. apply Hall. now rewrite Hp.
  - destruct (pendingFetches (deliver_all messages st) !! id) as [h |] eqn:Hq;
      [| reflexivity].
    exfalso.
    assert (Hans : ¬ ¬ answered messages id).
    { intros Hn. apply Hno in Hn. congruence. }
    apply Hans. intros Ha. apply Hyes in Ha. discriminate.
Qed.

(** X4: A request whose response has not arrived keeps its entry and its promise
    pending, whatever else arrives: responses for other requests, duplicates
    of them, socket events, foreign messages. *)
Theorem unanswered_request_stays_pending (messages : list BridgeData)
    (st : PageState) (id : string) (h : nat) :
  table_ok st →
  pendingFetches st !! id = Some h → promises st !! h = Some Pending →
  ¬ answered messages id →
  pendingFetches (deliver_all messages st) !! id = Some h
  ∧ promises (deliver_all messages st) !! h = Some Pending.
Proof.
  revert st. induction messages as [| d rest IH]; intros st Hok Hp Hh Hno; [easy |].
  simpl.
  assert (Hno' : ¬ answered rest id).
  { intros (x & Hin & Hx). apply Hno. exists x. split; [| assumption].
    now apply elem_of_cons; right. }
  assert (Hok' : table_ok (deliver st d)) by now apply table_ok_handle.
  apply IH; try assumption.
  - destruct (is_fetch_response_dec d) as [Hresp | Hother].
    + rewrite deliver_response_table by assumption.
      destruct (msg_requestId d) as [id' |] eqn:Hid'; [| assumption].
      rewrite lookup_delete_ne; [assumption |]. intros ->. apply Hno. exists d.
      split; [apply list_elem_of_here | easy].
    + now rewrite (proj1 (deliver_not_response st d Hother)).
  - destruct (is_fetch_response_dec d) as [Hresp | Hother].
    + destruct (msg_requestId d ≫= (pendingFetches st !!.)) as [h' |] eqn:Hd.
      * destruct (msg_requestId d) as [id' |] eqn:Hid'; [| discriminate].
        simpl in Hd. unfold deliver.
        rewrite (handle_response_pending _ _ _ _ Hresp Hid' Hd). simpl.
        rewrite settle_other; [assumption |]. intros ->.
        destruct Hok as [_ Hinj]. apply Hno. exists d.
        split; [apply list_elem_of_here |]. split; [assumption |].
        rewrite Hid'. f_equal. eauto.
      * unfold deliver. now rewrite handle_response_unknown.
    + now rewrite (proj2 (deliver_not_response st d Hother)).
Qed.

End TrafficFacts.

(** ** What the caller of the proxied fetch gets *)

Section CallerFacts.
Context `{Platform}.
Import Bridge.








Lemma shouldProxyUrl_returns (targetUrl : URL) (st : PageState) :
  returns (shouldProxyUrl targetUrl st).
Proof.
  unfold shouldProxyUrl, returns.
  destruct (readCachedConfig_cases (sessionStorage st))
    as [(config & _ & ->) | [_ ->]]; simpl; [| eauto].
  destruct (negb _); [eauto |].
  destruct (getTargetHost_returns (Some config)) as [o ->]. simpl.
  destruct (negb _); eauto.
Qed.

(** X3: The proxied fetch rejects before anything is registered exactly when the
    URL does not parse. A target that is not eligible goes to the native
    fetch with the caller's own arguments and leaves the page untouched; an
    eligible one gets a fresh pending promise under the request id and one
    fetch-request message with the serialised options, and nothing else
    changes. *)
Theorem createProxiedFetch_effects (input : RequestInput) (init : option RequestInit)
    (id : string) (st : PageState) :
  (throws (createProxiedFetch input init id st)
   ↔ throws (URL_parse (urlStr input) (Some (location_href st))))
  ∧ ∀ targetUrl, URL_parse (urlStr input) (Some (location_href st)) = Ret targetUrl →
      (shouldProxyUrl targetUrl st = Ret false →
       createProxiedFetch input init id st = Ret (NativeFetch input init, st))
      ∧ (shouldProxyUrl targetUrl st = Ret true →
         ∃ st', createProxiedFetch input init id st
                = Ret (ProxiedFetch (length (promises st)), st')
           ∧ pendingFetches st' = <[id := length (promises st)]> (pendingFetches st)
           ∧ promises st' = promises st ++ [Pending]
           ∧ posted st'
             = posted st ++ [PostFetch id (href targetUrl) (serializeInit init)]
           ∧ socketMap st' = socketMap st ∧ objects st' = objects st
           ∧ observed st' = observed st
           ∧ sessionStorage st' = sessionStorage st).
Proof.
  unfold createProxiedFetch. split.
  - destruct (URL_parse _ _) as [targetUrl | e]; simpl.
    + destruct (shouldProxyUrl_returns targetUrl st) as [[|] ->]; simpl;
        split; intros [e He]; discriminate.
    + split; intros _; eexists; reflexivity.
  - intros targetUrl ->. simpl. split; intros ->; simpl; [reflexivity |].
    eexists. split; [reflexivity |]. simpl. easy.
Qed.

End CallerFacts.

(** ** The page's sockets *)

Section PageSocketFacts.
Context `{Platform}.
Import Bridge.

Lemma handleRemoteEvent_wsId this payload map obs :
  wsId (handleRemoteEvent this payload map obs).1.1 = wsId this.
Proof.
  unfold handleRemoteEvent. destruct (payload_event payload) as [kind |]; [| easy].
  repeat (destruct (String.eqb kind _); [easy |]). easy.
Qed.

Lemma handleRemoteEvent_map this payload map obs :
  (handleRemoteEvent this payload map obs).1.2 = map
  ∨ (handleRemoteEvent this payload map obs).1.2 = delete (wsId this) map.
Proof.
  unfold handleRemoteEvent. destruct (payload_event payload) as [kind |]; [| now left].
  destruct (String.eqb kind "open"); [now left |].
  destruct (String.eqb kind "message"); [now left |].
  destruct (String.eqb kind "error"); [now left |].
  destruct (String.eqb kind "close"); [now right | now left].
Qed.

(** The sockets table stays consistent with the object store. *)
Lemma sockets_ok_update st map ref ws ws' out obs :
  sockets_ok st → objects st !! ref = Some ws → wsId ws' = wsId ws →
  (map = socketMap st ∨ map = delete (wsId ws) (socketMap st)) →
  sockets_ok (with_sockets map (<[ref := ws']> (objects st)) out obs st).
Proof.
  intros Hok Href Hid Hmap id r Hl. simpl in *.
  assert (Hold : socketMap st !! id = Some r).
  { destruct Hmap as [-> | ->]; [assumption |].
    now apply lookup_delete_Some in Hl as [_ Hl]. }
  destruct (Hok id r Hold) as (w & Hw & Hwid).
  destruct (decide (r = ref)) as [-> | Hne].
  - exists ws'. split.
    + apply list_lookup_insert_eq. now apply lookup_lt_Some in Href.
    + congruence.
  - exists w. split; [| assumption]. now rewrite list_lookup_insert_ne.
Qed.

Lemma sockets_ok_handle (event_data : option BridgeData) (st : PageState) :
  sockets_ok st → sockets_ok (handleBridgeMessage event_data st).
Proof.
  intros Hok.
  assert (Hev : ∀ data st, sockets_ok st → sockets_ok (handleSocketEvent data st)).
  { clear. intros data st Hok. unfold handleSocketEvent.
    destruct (is_string _ _); [| assumption].
    destruct (_ ≫= _) as [ref |]; [| assumption].
    destruct (objects st !! ref) as [ws |] eqn:Href; [| assumption].
    pose proof (handleRemoteEvent_wsId ws (msg_payload data) (socketMap st) (observed st))
      as Hid.
    pose proof (handleRemoteEvent_map ws (msg_payload data) (socketMap st) (observed st))
      as Hmap.
    destruct (handleRemoteEvent _ _ _ _) as [[ws' map] obs]. simpl in *.
    now apply (sockets_ok_update st map ref ws ws'). }
  destruct event_data as [data |]; [| assumption]. unfold handleBridgeMessage.
  destruct (negb _); [assumption |].
  destruct (is_string (msg_type data) BRIDGE_FETCH_RESPONSE); [| now apply Hev].
  destruct (_ ≫= _) as [h |]; [| assumption].
  destruct (truthy_string _); [assumption |]. now apply Hev.
Qed.

Lemma createProxiedWebSocket_inv url protocols id st c st' :
  createProxiedWebSocket url protocols id st = Ret (c, st') →
  ∃ targetUrl, URL_parse url (Some (location_href st)) = Ret targetUrl
    ∧ ((shouldProxyUrl targetUrl st = Ret false
        ∧ c = NativeSocket url protocols ∧ st' = st)
       ∨ (shouldProxyUrl targetUrl st = Ret true
          ∧ c = ProxiedSocket (length (objects st))
          ∧ st' = with_sockets (<[id := length (objects st)]> (socketMap st))
                    (objects st
                     ++ [{| readyState := CONNECTING; url := href targetUrl;
                            protocol := ""; binaryType := "blob"; wsId := id;
                            onopen := None; onmessage := None; onerror := None;
                            onclose := None |}])
                    (posted st
                     ++ [PostWsOpen id (href targetUrl) (protocolList protocols)])
                    (observed st) st)).
Proof.
  unfold createProxiedWebSocket.
  destruct (URL_parse _ _) as [targetUrl | e]; simpl; [| discriminate].
  destruct (shouldProxyUrl targetUrl st) as [[|] | e] eqn:Hp; simpl;
    try discriminate; intros [= <- <-]; exists targetUrl; split; auto.
Qed.

(** X11: The consistency of the socket table with the objects it refers to is
    kept by every message the handler receives, by every socket the factory
    builds and by every [close] the page calls. *)
Theorem sockets_ok_preserved (st : PageState) :
  sockets_ok st →
  (∀ event_data, sockets_ok (handleBridgeMessage event_data st))
  ∧ (∀ url protocols id c st',
       createProxiedWebSocket url protocols id st = Ret (c, st') → sockets_ok st')
  ∧ (∀ ref code reason, sockets_ok (call_close ref code reason st)).
Proof.
  intros Hok. split_and!.
  - intros event_data. now apply sockets_ok_handle.
  - intros url protocols id c st' Hc.
    apply createProxiedWebSocket_inv in Hc
      as (targetUrl & _ & [(_ & _ & ->) | (_ & _ & ->)]); [assumption |].
    intros id' r Hl. simpl in *.
    apply lookup_insert_Some in Hl as [[<- <-] | [_ Hl]].
    + eexists. split; [apply list_lookup_middle; reflexivity | reflexivity].
    + destruct (Hok id' r Hl) as (w & Hw & Hwid). exists w.
      split; [now apply lookup_app_l_Some | assumption].
  - intros ref code reason. unfold call_close.
    destruct (objects st !! ref) as [ws |] eqn:Href; [| assumption].
    unfold close. destruct (Z.eqb _ _).
    + apply (sockets_ok_update st _ ref ws ws); auto.
    + apply (sockets_ok_update st _ ref ws (set_readyState CLOSING ws)); auto.
Qed.


(** X12: Once the remote close event of a socket has been handled, the socket is
    closed but still the object the page holds, its id is out of the table,
    and every later event for this id is dropped. *)
Theorem events_after_close_dropped (st : PageState) (data : BridgeData)
    (id : string) (ref : nat) :
  sockets_ok st →
  is_socket_event data →
  payload_wsId (msg_payload data) = Some id →
  payload_event (msg_payload data) = Some "close" →
  socketMap st !! id = Some ref →
  let st' := handleBridgeMessage (Some data) st in
  socketMap st' !! id = None
  ∧ readyState <$> objects st' !! ref = Some CLOSED
  ∧ (∀ data', is_socket_event data' → payload_wsId (msg_payload data') = Some id →
              handleBridgeMessage (Some data') st' = st').
Proof.
  intros Hok [Hs Ht] Hid Hev Href st'.
  destruct (Hok id ref Href) as (ws & Hws & Hwid).
  assert (Hst' : st' = with_sockets (delete id (socketMap st))
                         (<[ref := set_readyState CLOSED ws]> (objects st))
                         (posted st)
                         (handleRemoteEvent ws (msg_payload data) (socketMap st)
                            (observed st)).2 st).
  { subst st'. unfold handleBridgeMessage. rewrite Hs, Ht. simpl.
    unfold handleSocketEvent. rewrite Ht, Hid. simpl. rewrite Href, Hws.
    unfold handleRemoteEvent. rewrite Hev. simpl. now rewrite Hwid. }
  rewrite Hst'. simpl. split_and!.
  - apply lookup_delete_eq.
  - rewrite list_lookup_insert_eq by now apply lookup_lt_Some in Hws. reflexivity.
  - intros data' [Hs' Ht'] Hid'. unfold handleBridgeMessage. rewrite Hs', Ht'. simpl.
    unfold handleSocketEvent. rewrite Ht', Hid'. simpl.
    now rewrite lookup_delete_eq.
Qed.

(** X13: Every remote event of a known kind is shown to the page once: to the
    matching [on*] handler first, when one is set, then to the listeners,
    under the socket's id; a close event carries the code and reason of the
    remote one; an event of any other kind shows nothing. *)
Theorem remote_event_shown_once (this : BridgeWebSocket) (payload : Payload)
    (map : gmap string nat) (obs : list Observation) :
  let obs' := (handleRemoteEvent this payload map obs).2 in
  let shown kind ev :=
    obs ++ match handler_of this kind with
           | Some handler => [HandlerCalled handler (wsId this) ev]
           | None => []
           end ++ [EventDispatched (wsId this) ev] in
  (payload_event payload = Some "open" → obs' = shown "open" EventOpen)
  ∧ (payload_event payload = Some "error" → obs' = shown "error" EventError)
  ∧ (payload_event payload = Some "close" →
     obs' = shown "close"
              (EventClose (payload_code payload) (payload_reason payload)
                 (truthy_bool (payload_wasClean payload))))
  ∧ (payload_event payload = Some "message" →
     ∃ received, obs' = shown "message" (EventMessage received)
       ∧ (∀ s, payload_data payload = DataString s → received = DataString s)
       ∧ (∀ v, payload_data payload = DataUint8Array v →
            received = if String.eqb (binaryType this) "arraybuffer"
                       then DataArrayBuffer (buffer v) else DataUint8Array v))
  ∧ (payload_event payload ∉ [Some "open"; Some "message"; Some "error"; Some "close"] →
     obs' = obs).
Proof.
  assert (Hshown : ∀ ws kind ev,
    handler_of ws kind = handler_of this kind → wsId ws = wsId this →
    dispatchSocketEvent ws kind ev obs
    = obs ++ match handler_of this kind with
             | Some handler => [HandlerCalled handler (wsId this) ev]
             | None => []
             end ++ [EventDispatched (wsId this) ev]).
  { intros ws kind ev Hh Hi. unfold dispatchSocketEvent. rewrite Hh, Hi.
    destruct (handler_of this kind); [now rewrite <- app_assoc | reflexivity]. }
  simpl. unfold handleRemoteEvent. split_and!.
  - intros ->. simpl. now apply Hshown.
  - intros ->. simpl. now apply Hshown.
  - intros ->. simpl. now apply Hshown.
  - intros ->. simpl. eexists. split; [now apply Hshown |].
    split; [now intros s -> | now intros v ->].
  - intros Hnot. destruct (payload_event payload) as [kind |]; [| reflexivity].
    destruct (String.eqb_spec kind "open") as [-> | _];
      [exfalso; apply Hnot; set_solver |].
    destruct (String.eqb_spec kind "message") as [-> | _];
      [exfalso; apply Hnot; set_solver |].
    destruct (String.eqb_spec kind "error") as [-> | _];
      [exfalso; apply Hnot; set_solver |].
    destruct (String.eqb_spec kind "close") as [-> | _];
      [exfalso; apply Hnot; set_solver |].
    reflexivity.
Qed.

End PageSocketFacts.

(** ** The relay's sockets, one message at a time *)

Section RelaySocketFacts.
Context `{Relay.Network}.
Import Relay.

Lemma table_get_set_eq k ws (t : SocketTable) : table_get k (table_set k ws t) = Some ws.
Proof.
  induction t as [| [k' ws'] t IH]; simpl.
  - now rewrite decide_True.
  - destruct (decide (k = k')) as [<- | Hne]; simpl.
    + now rewrite decide_True.
    + now rewrite decide_False.
Qed.

Lemma table_get_set_ne k k' ws (t : SocketTable) :
  k' ≠ k → table_get k' (table_set k ws t) = table_get k' t.
Proof.
  intros Hne. induction t as [| [k0 ws0] t IH]; simpl.
  - now rewrite decide_False.
  - destruct (decide (k = k0)) as [<- | Hne0]; simpl.
    + now rewrite !decide_False.
    + now rewrite IH.
Qed.

Lemma table_set_keys k ws (t : SocketTable) :
  (table_set k ws t).*1 = if decide (k ∈ t.*1) then t.*1 else t.*1 ++ [k].
Proof.
  induction t as [| [k0 ws0] t IH]; [reflexivity |].
  cbn [table_set]. destruct (decide (k = k0)) as [<- | Hne];
    rewrite !fmap_cons; cbn [fst].
  - rewrite decide_True by apply list_elem_of_here. reflexivity.
  - rewrite IH. destruct (decide (k ∈ t.*1)) as [Hin | Hout].
    + rewrite decide_True by now apply elem_of_cons; right. reflexivity.
    + rewrite decide_False; [reflexivity |].
      intros Hin. apply elem_of_cons in Hin as [? | ?]; congruence.
Qed.

Lemma table_delete_keys k (t : SocketTable) :
  (table_delete k t).*1 = filter (λ k', k' ≠ k) t.*1.
Proof.
  induction t as [| [k0 ws0] t IH]; [reflexivity |].
  cbn [table_delete]. destruct (decide (k = k0)) as [<- | Hne];
    rewrite !fmap_cons; cbn [fst].
  - rewrite filter_cons_False by (intros Hn; now apply Hn). apply IH.
  - rewrite filter_cons_True by congruence. now rewrite IH.
Qed.

Lemma mutated_keys k ws' (t : SocketTable) :
  ((λ e : option string * RealSocket,
      if decide (e.1 = k) then (e.1, ws') else e) <$> t).*1 = t.*1.
Proof.
  induction t as [| [k0 ws0] t IH]; [reflexivity |].
  rewrite !fmap_cons. cbn [fst]. rewrite IH.
  now destruct (decide (k0 = k)).
Qed.

Lemma close_real_keys k ws code reason st :
  (sockets (close_real k ws code reason st).1).*1 = (sockets st).*1.
Proof.
  unfold close_real. destruct (WebSocket_close ws code reason); simpl;
    [apply mutated_keys | reflexivity].
Qed.

Lemma cleanupSocket_unique k st : keys_unique st → keys_unique (cleanupSocket k st).
Proof.
  unfold keys_unique, cleanupSocket. intros Hnd.
  destruct (table_get k (sockets st)) as [ws |]; [| assumption].
  pose proof (close_real_keys k ws None None st) as Hk.
  destruct (close_real k ws None None st) as [st1 [e |]]; simpl in *;
    rewrite table_delete_keys, Hk; now apply NoDup_filter.
Qed.

Lemma cleanupSocket_absent k st :
  table_get k (sockets st) = None → cleanupSocket k st = st.
Proof. intros Hget. unfold cleanupSocket. now rewrite Hget. Qed.

(** X18: Messages that are not for the relay get no answer and change nothing:
    the runtime listener sends no reply for a message that is missing or of
    another type, and the port listener leaves its state as it is for a
    message that is missing, has no type, or is of a type other than
    ws-open, ws-send and ws-close. *)
Theorem relay_ignores_foreign_messages (st : PortState) :
  onMessage None = []
  ∧ (∀ message, message_type message ≠ Some BRIDGE_MESSAGE_TYPE →
                onMessage (Some message) = [])
  ∧ port_onMessage None st = st
  ∧ (∀ msg, pm_type msg ∉ [Some WS_OPEN; Some WS_SEND; Some WS_CLOSE] →
            port_onMessage (Some msg) st = st).
Proof.
  split_and!; try reflexivity.
  - intros message Ht. unfold onMessage.
    apply is_string_false in Ht. now rewrite Ht.
  - intros msg Hnot. unfold port_onMessage.
    destruct (negb _); [reflexivity |].
    destruct (Bridge.is_string (pm_type msg) WS_OPEN) eqn:Ho.
    { apply is_string_true in Ho. exfalso. apply Hnot. rewrite Ho. set_solver. }
    destruct (Bridge.is_string (pm_type msg) WS_SEND) eqn:Hs.
    { apply is_string_true in Hs. exfalso. apply Hnot. rewrite Hs. set_solver. }
    destruct (Bridge.is_string (pm_type msg) WS_CLOSE) eqn:Hc.
    { apply is_string_true in Hc. exfalso. apply Hnot. rewrite Hc. set_solver. }
    reflexivity.
Qed.

(** X19: A ws-open message stores the new real socket under its id; a socket
    already stored under this id is replaced without being closed. When the
    constructor throws, the table stays as it is and the page is sent one
    error event with the message of the error, or with "Create WebSocket
    failed" when that message is empty. *)
Theorem ws_open_registers (msg : PortMessage) (st : PortState) :
  pm_type msg = Some WS_OPEN →
  let st' := port_onMessage (Some msg) st in
  (∀ ws, WebSocket_new (pm_url msg) (pm_protocols msg) = Ret ws →
     table_get (pm_wsId msg) (sockets st') = Some ws
     ∧ port_posted st' = port_posted st ∧ closeCalls st' = closeCalls st)
  ∧ (∀ e, WebSocket_new (pm_url msg) (pm_protocols msg) = Throw e →
       sockets st' = sockets st ∧ closeCalls st' = closeCalls st
       ∧ port_posted st'
         = port_posted st
           ++ [error_message (pm_wsId msg)
                 (if String.eqb e "" then "Create WebSocket failed" else e)]).
Proof.
  intros Ht st'. subst st'. unfold port_onMessage. rewrite Ht. simpl.
  split.
  - intros ws ->. simpl. split; [apply table_get_set_eq | easy].
  - intros e ->. simpl. split_and!; try reflexivity.
    unfold message_or, or_else, truthy_string.
    now destruct (String.eqb e "").
Qed.

(** X20: A ws-send message for an id that has no socket, or whose socket is not
    open, changes nothing but for one error event "WebSocket is not open"
    sent to the page; on an open socket a send that throws is reported in
    the same way, and one that returns posts nothing. *)
Theorem ws_send_guarded (msg : PortMessage) (st : PortState) :
  pm_type msg = Some WS_SEND →
  let st' := port_onMessage (Some msg) st in
  let rejected := postMessage (error_message (pm_wsId msg) "WebSocket is not open") st in
  (table_get (pm_wsId msg) (sockets st) = None → st' = rejected)
  ∧ (∀ ws, table_get (pm_wsId msg) (sockets st) = Some ws →
       (real_readyState ws ≠ OPEN → st' = rejected)
       ∧ (real_readyState ws = OPEN →
          (∀ e, WebSocket_send ws (pm_data msg) = Throw e →
             st' = postMessage
                     (error_message (pm_wsId msg)
                        (if String.eqb e "" then "Send message failed" else e)) st)
          ∧ (returns (WebSocket_send ws (pm_data msg)) →
             port_posted st' = port_posted st
             ∧ (sockets st').*1 = (sockets st).*1
             ∧ closeCalls st' = closeCalls st))).
Proof.
  intros Ht st' rejected. subst st' rejected. unfold port_onMessage. rewrite Ht. simpl.
  split; [now intros -> |]. intros ws ->. split.
  - intros Hne. apply Z.eqb_neq in Hne. now rewrite Hne.
  - intros Heq. apply Z.eqb_eq in Heq. rewrite Heq. simpl. split.
    + intros e ->. unfold message_or, or_else, truthy_string.
      now destruct (String.eqb e "").
    + intros [ws' ->]. simpl. split; [reflexivity |].
      split; [apply mutated_keys | reflexivity].
Qed.

Lemma port_onMessage_get_other (msg : PortMessage) (st : PortState) k :
  k ≠ pm_wsId msg →
  table_get k (sockets (port_onMessage (Some msg) st)) = table_get k (sockets st).
Proof.
  intros Hne. unfold port_onMessage.
  destruct (negb _); [reflexivity |].
  destruct (Bridge.is_string (pm_type msg) WS_OPEN).
  { destruct (WebSocket_new _ _); simpl; [now apply table_get_set_ne | reflexivity]. }
  destruct (Bridge.is_string (pm_type msg) WS_SEND).
  { destruct (table_get (pm_wsId msg) (sockets st)) as [ws |]; [| reflexivity].
    destruct (negb _); [reflexivity |].
    destruct (WebSocket_send _ _); simpl; [| reflexivity].
    rewrite table_get_mutated. now rewrite decide_False. }
  destruct (Bridge.is_string (pm_type msg) WS_CLOSE); [| reflexivity].
  destruct (table_get (pm_wsId msg) (sockets st)) as [ws |] eqn:Hget.
  - pose proof (close_real_effects (pm_wsId msg) ws (pm_code msg) (pm_reason msg) st)
      as (_ & _ & _ & _ & Hk & _).
    destruct (close_real _ ws _ _ st) as [st1 [e |]]; simpl in *.
    + destruct (cleanupSocket_effects (pm_wsId msg)
                  (postMessage (error_message (pm_wsId msg)
                                  (message_or e "Close WebSocket failed")) st1))
        as (_ & _ & Ho & _).
      rewrite Ho by assumption. simpl. now apply Hk.
    + destruct (cleanupSocket_effects (pm_wsId msg) st1) as (_ & _ & Ho & _).
      rewrite Ho by assumption. now apply Hk.
  - destruct (cleanupSocket_effects (pm_wsId msg) st) as (_ & _ & Ho & _).
    now apply Ho.
Qed.

Lemma port_onMessage_keys (msg : option PortMessage) (st : PortState) :
  keys_unique st → keys_unique (port_onMessage msg st).
Proof.
  unfold keys_unique. intros Hnd. destruct msg as [msg |]; [| assumption].
  unfold port_onMessage.
  destruct (negb _); [assumption |].
  destruct (Bridge.is_string (pm_type msg) WS_OPEN).
  { destruct (WebSocket_new _ _); simpl; [| assumption].
    rewrite table_set_keys. destruct (decide _) as [| Hout]; [assumption |].
    apply NoDup_app. split; [assumption |].
    split; [| apply NoDup_singleton].
    intros k Hin Hk. apply list_elem_of_singleton in Hk. congruence. }
  destruct (Bridge.is_string (pm_type msg) WS_SEND).
  { destruct (table_get (pm_wsId msg) (sockets st)) as [ws |]; [| assumption].
    destruct (negb _); [assumption |].
    destruct (WebSocket_send _ _); simpl; [| assumption].
    now rewrite mutated_keys. }
  destruct (Bridge.is_string (pm_type msg) WS_CLOSE); [| assumption].
  apply cleanupSocket_unique. unfold keys_unique.
  destruct (table_get (pm_wsId msg) (sockets st)) as [ws |]; [| assumption].
  pose proof (close_real_keys (pm_wsId msg) ws (pm_code msg) (pm_reason msg) st) as Hk.
  destruct (close_real _ ws _ _ st) as [st1 [e |]]; simpl in *; now rewrite Hk.
Qed.

Lemma socket_callback_keys wsId evt (st : PortState) :
  keys_unique st → keys_unique (socket_callback wsId evt st).
Proof.
  intros Hnd. destruct evt; simpl; try assumption.
  now apply cleanupSocket_unique.
Qed.

(** X22: A port starts with an empty table, and no id ever comes to stand twice
    in it: not by a message of the page, not by an event of a real socket,
    not by the disconnect. A message for one id leaves the socket stored
    under any other id where it is. *)
Theorem relay_table_keys_unique (st : PortState) :
  (∀ name st0, RelayPort.onConnect name = Some st0 →
          name = WS_PORT_NAME ∧ sockets st0 = [] ∧ keys_unique st0)
  ∧ (keys_unique st →
     (∀ msg, keys_unique (port_onMessage msg st))
     ∧ (∀ wsId evt, keys_unique (socket_callback wsId evt st))
     ∧ keys_unique (port_onDisconnect st))
  ∧ (∀ msg k, k ≠ pm_wsId msg →
       table_get k (sockets (port_onMessage (Some msg) st)) = table_get k (sockets st)).
Proof.
  split_and!.
  - intros name st0. unfold RelayPort.onConnect.
    destruct (String.eqb_spec name WS_PORT_NAME) as [-> | Hne]; simpl;
      [| discriminate].
    intros [= <-]. split_and!; [reflexivity | reflexivity | apply NoDup_nil_2].
  - intros Hnd. split_and!.
    + intros msg. now apply port_onMessage_keys.
    + intros wsId evt. now apply socket_callback_keys.
    + apply NoDup_nil_2.
  - intros msg k Hne. now apply port_onMessage_get_other.
Qed.

(** X21: When a real socket closes, the page is sent one close event with the
    code, the reason and the clean flag of the real one, and the socket
    leaves the table; cleaning up an id that is no longer there does
    nothing, so cleaning up twice is cleaning up once. *)
Theorem native_close_cleans_up (wsId : option string) (code : Z) (reason : string)
    (wasClean : bool) (st : PortState) :
  let st' := socket_callback wsId (NativeClose code reason wasClean) st in
  port_posted st'
  = port_posted st
    ++ [{| evt_wsId := wsId; evt_event := Some "close"; evt_data := DataNone;
           evt_code := Some code; evt_reason := Some reason;
           evt_wasClean := Some wasClean; evt_error := None |}]
  ∧ table_get wsId (sockets st') = None
  ∧ (∀ k, k ≠ wsId → table_get k (sockets st') = table_get k (sockets st))
  ∧ cleanupSocket wsId st' = st'
  ∧ cleanupSocket wsId (cleanupSocket wsId st) = cleanupSocket wsId st.
Proof.
  simpl.
  set (st1 := postMessage _ st).
  destruct (cleanupSocket_effects wsId st1) as (Hnone & Hposted & Hothers & _).
  split_and!.
  - now rewrite Hposted.
  - assumption.
  - intros k Hne. now rewrite Hothers.
  - now apply cleanupSocket_absent.
  - apply cleanupSocket_absent.
    now destruct (cleanupSocket_effects wsId st) as (Hn & _).
Qed.

End RelaySocketFacts.

(** ** The request on its way to the real fetch *)

Section RequestFacts.
Context `{Platform}.

(** X16: Serialising what the relay rebuilt gives the serialised form again, for
    every body; only a [URLSearchParams] that serialises to the empty text
    is the exception, being rebuilt as an empty string and then sent as no
    body. *)
Theorem serialized_form_is_stable (body : option BodyInit) :
  (∀ p, body = Some (BodyURLSearchParams p) → URLSearchParams_toString p ≠ "") →
  Bridge.serializeBody (Relay.deserializeBody (Bridge.serializeBody body))
  = Bridge.serializeBody body.
Proof.
  intros Hparams.
  destruct body as [[s | p | entries | b | b | v |] |]; simpl; try reflexivity.
  - destruct (String.eqb_spec s ""); simpl; [reflexivity |].
    now destruct (String.eqb_spec s "").
  - specialize (Hparams p eq_refl).
    now destruct (String.eqb_spec (URLSearchParams_toString p) "").
  - f_equal. rewrite <- !list_fmap_compose. apply list_fmap_ext.
    intros _ [key [s | f]] _; simpl; [reflexivity |].
    rewrite mime_or_empty_Some. unfold File_arrayBuffer. simpl.
    now rewrite view_bytes_Uint8Array_of.
  - rewrite mime_or_empty_Some. unfold Blob_arrayBuffer. simpl.
    now rewrite view_bytes_Uint8Array_of.
Qed.

(** X17: The options the real fetch is called with carry the method and the
    credentials mode of the caller, no body when the caller gave none, and
    for every accepted body one with the same content, fields and mime
    types; a call without options reaches the fetch without any. *)
Theorem request_options_survive (init : RequestInit) (hs : option header_list) :
  let sent := relayed_init (Some (Bridge.serializeInit (Some init))) hs in
  req_method sent = req_method init
  ∧ req_credentials sent = req_credentials init
  ∧ (req_body init = None → req_body sent = None)
  ∧ (∀ body, req_body init = Some body → accepted body →
       ∃ body', req_body sent = Some body' ∧ wire_image body' = wire_image body)
  ∧ relayed_init (Some (Bridge.serializeInit None)) None
    = {| req_headers := None; req_method := None;
         req_credentials := None; req_body := None |}.
Proof.
  simpl. split_and!; try reflexivity.
  - now intros ->.
  - intros body -> Hacc. now apply accepted_body_roundtrip.
Qed.

End RequestFacts.

(** ** The content script *)

Section ContentFacts.
Import Content.

(** X23: What the page posts is forwarded once and only once: a fetch request as
    one runtime message of the type the relay answers, with its url and
    options and with the request id kept for the reply; a socket message as
    one port message of the same type and fields, after connecting the port
    under the name the relay accepts when there is none yet. A message from
    another source, without data or of another scope is not forwarded. *)
Theorem content_forwards_bridge_messages (m : Bridge.Posted) (wsPort : bool) :
  (∀ requestId url init, m = Bridge.PostFetch requestId url init →
     onWindowMessage true (Some (posted_data m)) wsPort
     = (wsPort,
        [runtime_sendMessage
           {| Relay.message_type := Some Relay.BRIDGE_MESSAGE_TYPE;
              Relay.message_payload :=
                Some {| Relay.fetch_url := url; Relay.fetch_init := Some init |} |}
           (Some requestId)]))
  ∧ ((∀ requestId url init, m ≠ Bridge.PostFetch requestId url init) →
     Relay.pm_type (on_port (posted_data m)) = Some (Bridge.posted_type m)
     ∧ onWindowMessage true (Some (posted_data m)) true
       = (true, [port_postMessage (on_port (posted_data m))])
     ∧ onWindowMessage true (Some (posted_data m)) false
       = (true, [runtime_connect Relay.WS_PORT_NAME;
                 port_postMessage (on_port (posted_data m))]))
  ∧ (∀ data, onWindowMessage false data wsPort = (wsPort, []))
  ∧ onWindowMessage true None wsPort = (wsPort, [])
  ∧ (∀ data, wd_scope data ≠ Some BRIDGE_SCOPE →
             onWindowMessage true (Some data) wsPort = (wsPort, [])).
Proof.
  split_and!.
  - intros requestId url init ->. reflexivity.
  - intros Hnot. destruct m as [requestId url init | | |];
      [now specialize (Hnot requestId url init) | | |]; easy.
  - reflexivity.
  - reflexivity.
  - intros data Hs. unfold onWindowMessage. simpl.
    apply is_string_false in Hs. now rewrite Hs.
Qed.

Lemma forward_connected (m : Bridge.Posted) :
  (onWindowMessage true (Some (posted_data m)) true).1 = true
  ∧ count_connects (onWindowMessage true (Some (posted_data m)) true).2 = 0%nat.
Proof. now destruct m. Qed.

Lemma count_connects_app (l1 l2 : list Action) :
  count_connects (l1 ++ l2) = (count_connects l1 + count_connects l2)%nat.
Proof. unfold count_connects. now rewrite filter_app, length_app. Qed.

Lemma forward_all_connected (ms : list Bridge.Posted) :
  (forward_all ms true).1 = true ∧ count_connects (forward_all ms true).2 = 0%nat.
Proof.
  induction ms as [| m ms IH]; [easy |]. simpl.
  destruct (forward_connected m) as [Hp Hc]. rewrite Hp.
  split; [apply IH |]. rewrite count_connects_app, Hc. apply IH.
Qed.

(** X24: Over any sequence of messages of the page the port is connected at most
    once, and not at all when it is connected already; once connected it
    stays so until its disconnect listener runs, after which there is no
    port. *)
Theorem port_connected_once (ms : list Bridge.Posted) (wsPort : bool) :
  (count_connects (forward_all ms wsPort).2 ≤ 1)%nat
  ∧ (wsPort = true →
     (forward_all ms wsPort).1 = true
     ∧ count_connects (forward_all ms wsPort).2 = 0%nat)
  ∧ ((forward_all ms wsPort).1 = true →
     wsPort = true ∨ count_connects (forward_all ms wsPort).2 = 1%nat)
  ∧ port_onDisconnect (forward_all ms wsPort).1 = false.
Proof.
  assert (Hconn : ∀ ms, (forward_all ms true).1 = true
                        ∧ count_connects (forward_all ms true).2 = 0%nat)
    by apply forward_all_connected.
  assert (Hmain : ∀ ms, (count_connects (forward_all ms false).2 ≤ 1)%nat
            ∧ ((forward_all ms false).1 = true →
               count_connects (forward_all ms false).2 = 1%nat)).
  { clear ms. induction ms as [| m ms IH]; [split; [vm_compute; lia | discriminate] |].
    cbn [forward_all]. cbn [fst snd]. rewrite count_connects_app.
    assert (Hstep :
      ((onWindowMessage true (Some (posted_data m)) false).1 = false
       ∧ count_connects (onWindowMessage true (Some (posted_data m)) false).2 = 0%nat)
      ∨ ((onWindowMessage true (Some (posted_data m)) false).1 = true
         ∧ count_connects (onWindowMessage true (Some (posted_data m)) false).2
           = 1%nat))
      by (destruct m; vm_compute; auto).
    destruct Hstep as [[-> ->] | [-> ->]]; [apply IH |].
    destruct (Hconn ms) as [Hp Hc]. rewrite Hc. split; [lia | reflexivity]. }
  destruct wsPort.
  - destruct (Hconn ms) as [Hp Hc]. rewrite Hp, Hc. split_and!; auto with lia.
  - destruct (Hmain ms) as [Hle Hone]. split_and!; auto. discriminate.
Qed.

End ContentFacts.

(** ** From the page to the network and back *)

Section EndToEnd.
Context `{Platform} `{Relay.Network}.
Import Bridge.




End EndToEnd.

(** ** From the real socket to the page *)

Section SocketEndToEnd.
Context `{Relay.Network}.
Import Bridge.

Lemma handle_known_socket_event data id ref ws st :
  is_socket_event data → payload_wsId (msg_payload data) = Some id →
  socketMap st !! id = Some ref → objects st !! ref = Some ws →
  handleBridgeMessage (Some data) st
  = with_sockets
      (handleRemoteEvent ws (msg_payload data) (socketMap st) (observed st)).1.2
      (<[ref := (handleRemoteEvent ws (msg_payload data) (socketMap st)
                   (observed st)).1.1]> (objects st))
      (posted st)
      (handleRemoteEvent ws (msg_payload data) (socketMap st) (observed st)).2 st.
Proof.
  intros [Hs Ht] Hid Href Hws. unfold handleBridgeMessage. rewrite Hs, Ht. simpl.
  unfold handleSocketEvent. rewrite Ht, Hid. simpl. rewrite Href, Hws.
  now destruct (handleRemoteEvent _ _ _ _) as [[? ?] ?].
Qed.

Lemma dispatchSocketEvent_last this kind ev obs :
  last (dispatchSocketEvent this kind ev obs) = Some (EventDispatched (wsId this) ev).
Proof.
  unfold dispatchSocketEvent. destruct (handler_of this kind); apply last_snoc.
Qed.

(** X14: When a real socket closes, both tables let go of it: the relay posts
    the close event and drops the socket, and the page, handling that event
    as the content script passes it on, marks its socket closed, drops its
    id and shows the page a close event with the code, the reason and the
    clean flag of the real one. *)
Theorem remote_close_reaches_page (id : string) (ref : nat) (code : Z)
    (reason : string) (wasClean : bool) (port : Relay.PortState) (st : PageState) :
  sockets_ok st → socketMap st !! id = Some ref →
  let port' := Relay.socket_callback (Some id) (Relay.NativeClose code reason wasClean)
                 port in
  ∃ m, last (Relay.port_posted port') = Some m
    ∧ Relay.table_get (Some id) (Relay.sockets port') = None
    ∧ let st' := handleBridgeMessage (Some (Content.port_onMessage m)) st in
      socketMap st' !! id = None
      ∧ readyState <$> objects st' !! ref = Some CLOSED
      ∧ last (observed st')
        = Some (EventDispatched id (EventClose (Some code) (Some reason) wasClean)).
Proof.
  intros Hok Href port'. subst port'. cbn [Relay.socket_callback].
  set (m := {| evt_wsId := Some id; evt_event := Some "close"; evt_data := DataNone;
               evt_code := Some code; evt_reason := Some reason;
               evt_wasClean := Some wasClean; evt_error := None |}).
  destruct (cleanupSocket_effects (Some id) (Relay.postMessage m port))
    as (Hnone & Hposted & _).
  exists m. split; [rewrite Hposted; apply last_snoc |]. split; [assumption |].
  destruct (Hok id ref Href) as (ws & Hws & Hwid). cbv zeta.
  rewrite (handle_known_socket_event _ id ref ws); try easy.
  unfold handleRemoteEvent. simpl. rewrite Hwid. split_and!.
  - apply lookup_delete_eq.
  - rewrite list_lookup_insert_eq by now apply lookup_lt_Some in Hws. reflexivity.
  - rewrite dispatchSocketEvent_last. simpl. now rewrite Hwid.
Qed.

(** X15: A message of a real socket reaches the page as one message event: a text
    as it is; an array buffer as an array buffer of the same bytes when the
    page's socket asks for array buffers, and as a byte array of the same
    bytes otherwise; anything else, a blob included, without data. Neither
    table changes, and the page's socket keeps its ready-state. *)
Theorem remote_message_reaches_page (id : string) (ref : nat) (ws : BridgeWebSocket)
    (d : SocketData) (port : Relay.PortState) (st : PageState) :
  socketMap st !! id = Some ref → objects st !! ref = Some ws → wsId ws = id →
  let port' := Relay.socket_callback (Some id) (Relay.NativeMessage d) port in
  let received :=
    match d with
    | DataString s => DataString s
    | DataArrayBuffer b =>
        if String.eqb (binaryType ws) "arraybuffer"
        then DataArrayBuffer b else DataUint8Array (Uint8Array_of b)
    | _ => DataNone
    end in
  ∃ m, Relay.port_posted port' = Relay.port_posted port ++ [m]
    ∧ Relay.sockets port' = Relay.sockets port
    ∧ let st' := handleBridgeMessage (Some (Content.port_onMessage m)) st in
      last (observed st') = Some (EventDispatched id (EventMessage received))
      ∧ socketMap st' = socketMap st
      ∧ objects st' !! ref = Some ws.
Proof.
  intros Href Hws Hwid port' received. subst port'. cbn [Relay.socket_callback].
  eexists. split; [reflexivity |].
  split; [reflexivity |]. cbv zeta.
  rewrite (handle_known_socket_event _ id ref ws); try easy.
  unfold handleRemoteEvent. simpl. split_and!.
  - rewrite dispatchSocketEvent_last, Hwid. do 3 f_equal.
    subst received. now destruct d as [| s | b | v | b].
  - reflexivity.
  - apply list_lookup_insert_eq. now apply lookup_lt_Some in Hws.
Qed.

End SocketEndToEnd.

(** ** The cached configuration *)

Section CacheFacts.
Context `{Platform}.
Variable JSON_stringify : ExtensionConfig → string.
Variable isEqual : ExtensionConfig → JSON → bool.



End CacheFacts.

(** ** Installation *)

Section InstallFacts.
Import Install.

(** X26: Installing the bridge again changes nothing: however often it runs, the
    page's fetch and WebSocket are wrapped once, around what was there
    before the first run, and the marker is set. *)
Theorem installBridge_idempotent (window : Window) (n : nat) :
  Nat.iter (S n) installBridge window = installBridge window
  ∧ __PAGE_SPY_BRIDGE__ (installBridge window) = true
  ∧ (__PAGE_SPY_BRIDGE__ window = false →
     window_fetch (Nat.iter (S n) installBridge window) = Proxy (window_fetch window)
     ∧ window_WebSocket (Nat.iter (S n) installBridge window)
       = Proxy (window_WebSocket window)
     ∧ message_listener (Nat.iter (S n) installBridge window) = true)
  ∧ (__PAGE_SPY_BRIDGE__ window = true →
     Nat.iter (S n) installBridge window = window).
Proof.
  assert (Hmark : ∀ w, __PAGE_SPY_BRIDGE__ (installBridge w) = true).
  { intros w. unfold installBridge. now destruct (__PAGE_SPY_BRIDGE__ w) eqn:Hw. }
  assert (Htwice : ∀ w, installBridge (installBridge w) = installBridge w).
  { intros w. unfold installBridge at 1. now rewrite Hmark. }
  assert (Hiter : Nat.iter (S n) installBridge window = installBridge window).
  { induction n as [| n IH]; [reflexivity |].
    change (installBridge (Nat.iter (S n) installBridge window) = installBridge window).
    now rewrite IH. }
  rewrite Hiter. split_and!; try easy.
  - intros Hfresh. unfold installBridge. now rewrite Hfresh.
  - intros Hset. unfold installBridge. now rewrite Hset.
Qed.

End InstallFacts.

(** ** Further theorems at the sample inputs *)

Lemma sample_page_pending_ok : table_ok sample_page_pending.
Proof.
  split; simpl.
  - intros id h Hl. apply lookup_insert_Some in Hl as [[_ <-] | [_ Hl]]; [lia |].
    apply lookup_singleton_Some in Hl as [_ <-]. lia.
  - intros id1 id2 h H1 H2.
    apply lookup_insert_Some in H1 as [[<- <-] | [Hn1 H1]];
      apply lookup_insert_Some in H2 as [[<- Hh] | [Hn2 H2]]; try reflexivity.
    + apply lookup_singleton_Some in H2 as [_ ?]. lia.
    + apply lookup_singleton_Some in H1 as [_ ?]. lia.
    + apply lookup_singleton_Some in H1 as [<- _].
      now apply lookup_singleton_Some in H2 as [<- _].
Qed.

Lemma sample_page_socket_ok : sockets_ok sample_page_socket.
Proof.
  intros id ref Hl. simpl in Hl. apply lookup_singleton_Some in Hl as [<- <-].
  exists (sample_socket Bridge.OPEN). split; reflexivity.
Qed.

Lemma sample_response_is_response id text : is_fetch_response (sample_response id text).
Proof. split; reflexivity. Qed.

Lemma sample_event_is_event kind : is_socket_event (sample_event_data kind).
Proof. split; reflexivity. Qed.

(** A response under another scope is not taken for one of the bridge. *)
Lemma foreign_messages_ignored_witness :
  Bridge.msg_scope sample_foreign ≠ Some Bridge.BRIDGE_SCOPE
  ∧ Bridge.handleBridgeMessage (Some sample_foreign) sample_page_pending
    = sample_page_pending.
Proof.
  assert (Hs : Bridge.msg_scope sample_foreign ≠ Some Bridge.BRIDGE_SCOPE)
    by discriminate.
  split; [exact Hs |].
  exact (proj1 (proj2 (foreign_messages_ignored sample_page_pending)) sample_foreign Hs).
Defined.

(** An event for a socket the page does not know. *)
Lemma event_for_unknown_socket_dropped_witness :
  Bridge.handleBridgeMessage (Some (sample_event_data "open")) sample_page_pending
  = sample_page_pending.
Proof.
  exact (event_for_unknown_socket_dropped sample_page_pending (sample_event_data "open")
           (sample_event_is_event "open") eq_refl).
Defined.

(** A close event leaves the pending fetch where it is. *)
Lemma tables_do_not_interfere_witness :
  Bridge.pendingFetches
    (Bridge.handleBridgeMessage (Some (sample_event_data "close")) sample_page_socket)
  = Bridge.pendingFetches sample_page_socket
  ∧ Bridge.promises
      (Bridge.handleBridgeMessage (Some (sample_event_data "close")) sample_page_socket)
    = Bridge.promises sample_page_socket.
Proof.
  exact (proj2 (proj2 (tables_do_not_interfere (Some (sample_event_data "close"))
                         sample_page_socket))
           (sample_event_data "close") eq_refl (sample_event_is_event "close")).
Defined.

(** The table stays consistent when a response is handled. *)
Lemma table_ok_preserved_witness :
  table_ok sample_page_pending
  ∧ table_ok (Bridge.handleBridgeMessage (Some (sample_response "fetch_a" "first"))
                sample_page_pending).
Proof.
  split; [exact sample_page_pending_ok |].
  exact (proj1 (table_ok_preserved (H := sample_platform) sample_page_pending
                  sample_page_pending_ok)
           (Some (sample_response "fetch_a" "first"))).
Defined.

(** Both requests answered, with foreign traffic in between: the table is
    empty. *)
Lemma pending_table_after_traffic_witness :
  Bridge.pendingFetches
    (deliver_all [sample_response "fetch_b" "second"; sample_foreign;
                  sample_response "fetch_a" "first"] sample_page_pending) = ∅.
Proof.
  refine (proj2 (proj2 (pending_table_after_traffic
            [sample_response "fetch_b" "second"; sample_foreign;
             sample_response "fetch_a" "first"] sample_page_pending)) _).
  intros id [h Hl]. simpl in Hl.
  apply lookup_insert_Some in Hl as [[<- _] | [_ Hl]].
  - exists (sample_response "fetch_b" "second").
    split; [apply list_elem_of_here |].
    split; [apply sample_response_is_response | reflexivity].
  - apply lookup_singleton_Some in Hl as [<- _].
    exists (sample_response "fetch_a" "first").
    split; [do 2 apply list_elem_of_further; apply list_elem_of_here |].
    split; [apply sample_response_is_response | reflexivity].
Defined.

(** The first request stays pending while the second is answered. *)
Lemma unanswered_request_stays_pending_witness :
  ¬ answered [sample_response "fetch_b" "second"; sample_foreign] "fetch_a"
  ∧ Bridge.pendingFetches
      (deliver_all [sample_response "fetch_b" "second"; sample_foreign]
         sample_page_pending) !! "fetch_a" = Some 0%nat
  ∧ Bridge.promises
      (deliver_all [sample_response "fetch_b" "second"; sample_foreign]
         sample_page_pending) !! 0%nat = Some Bridge.Pending.
Proof.
  assert (Hno : ¬ answered [sample_response "fetch_b" "second"; sample_foreign]
                  "fetch_a").
  { intros (d & Hin & [Hs _] & Hid).
    apply elem_of_cons in Hin as [-> | Hin]; [discriminate |].
    apply list_elem_of_singleton in Hin as ->. discriminate. }
  split; [exact Hno |].
  exact (unanswered_request_stays_pending
           [sample_response "fetch_b" "second"; sample_foreign]
           sample_page_pending "fetch_a" 0%nat
           sample_page_pending_ok eq_refl eq_refl Hno).
Defined.



(** A fetch of another host goes to the native fetch. *)
Lemma createProxiedFetch_effects_witness :
  Bridge.createProxiedFetch (H := sample_platform)
    (Bridge.InputString "https://other.example/") None "fetch_a"
    (sample_page sample_storage)
  = Ret (Bridge.NativeFetch (Bridge.InputString "https://other.example/") None,
         sample_page sample_storage).
Proof.
  refine (proj1 (proj2 (createProxiedFetch_effects (H := sample_platform)
                          (Bridge.InputString "https://other.example/") None "fetch_a"
                          (sample_page sample_storage))
                   (sample_url "other.example" "/") eq_refl) _).
  vm_compute. reflexivity.
Defined.

(** Closing the socket keeps table and objects consistent. *)
Lemma sockets_ok_preserved_witness :
  sockets_ok sample_page_socket
  ∧ sockets_ok (Bridge.call_close 0 None None sample_page_socket).
Proof.
  split; [exact sample_page_socket_ok |].
  exact (proj2 (proj2 (sockets_ok_preserved (H := sample_platform) sample_page_socket
                         sample_page_socket_ok))
           0%nat None None).
Defined.


(** After the close event, an error event for the same socket is dropped. *)
Lemma events_after_close_dropped_witness :
  Bridge.socketMap
    (Bridge.handleBridgeMessage (Some (sample_event_data "close")) sample_page_socket)
  !! "ws_1" = None
  ∧ Bridge.handleBridgeMessage (Some (sample_event_data "error"))
      (Bridge.handleBridgeMessage (Some (sample_event_data "close")) sample_page_socket)
    = Bridge.handleBridgeMessage (Some (sample_event_data "close")) sample_page_socket.
Proof.
  pose proof (events_after_close_dropped sample_page_socket (sample_event_data "close")
                "ws_1" 0%nat sample_page_socket_ok (sample_event_is_event "close")
                eq_refl eq_refl eq_refl) as (Hgone & _ & Hdrop).
  split; [exact Hgone |].
  exact (Hdrop (sample_event_data "error") (sample_event_is_event "error") eq_refl).
Defined.

(** An error event goes to [onerror] first, then to the listeners. *)
Lemma remote_event_shown_once_witness :
  (Bridge.handleRemoteEvent (sample_socket Bridge.OPEN) (sample_event "error") ∅ []).2
  = [Bridge.HandlerCalled 7 "ws_1" Bridge.EventError;
     Bridge.EventDispatched "ws_1" Bridge.EventError].
Proof.
  exact (proj1 (proj2 (remote_event_shown_once (sample_socket Bridge.OPEN)
                         (sample_event "error") ∅ []))
           eq_refl).
Defined.

(** A fetch request is not a message for the port of the relay. *)
Lemma relay_ignores_foreign_messages_witness :
  (Relay.pm_type (Content.on_port (posted_data (Bridge.PostFetch "fetch_a" "u"
                    {| init_headers := None; init_method := None;
                       init_credentials := None; init_body := None |})))
   ∉ [Some Relay.WS_OPEN; Some Relay.WS_SEND; Some Relay.WS_CLOSE])
  ∧ Relay.port_onMessage (H := working_network)
      (Some (Content.on_port (posted_data (Bridge.PostFetch "fetch_a" "u"
               {| init_headers := None; init_method := None;
                  init_credentials := None; init_body := None |}))))
      sample_port
    = sample_port.
Proof.
  set (msg := Content.on_port _).
  assert (Hnot : Relay.pm_type msg
                 ∉ [Some Relay.WS_OPEN; Some Relay.WS_SEND; Some Relay.WS_CLOSE]).
  { intros Hin. repeat (apply elem_of_cons in Hin as [Heq | Hin]; [discriminate |]).
    now apply elem_of_nil in Hin. }
  split; [exact Hnot |].
  exact (proj2 (proj2 (proj2 (relay_ignores_foreign_messages (H := working_network)
                                sample_port)))
           msg Hnot).
Defined.

(** A ws-open on a working network stores the socket. *)
Lemma ws_open_registers_witness :
  Relay.pm_type sample_ws_open = Some Relay.WS_OPEN
  ∧ Relay.table_get (Some "ws_3")
      (Relay.sockets
         (Relay.port_onMessage (H := working_network) (Some sample_ws_open) sample_port))
    = Some {| Relay.real_url := "wss://svc.local/ws"; Relay.real_protocols := Some [];
              Relay.real_readyState := 0 |}.
Proof.
  split; [reflexivity |].
  exact (proj1 (proj1 (ws_open_registers (H := working_network) sample_ws_open
                         sample_port eq_refl)
                  _ eq_refl)).
Defined.

(** A ws-send for a socket the relay does not have. *)
Lemma ws_send_guarded_witness :
  Relay.pm_type (sample_ws_send "ws_9") = Some Relay.WS_SEND
  ∧ Relay.table_get (Some "ws_9") (Relay.sockets sample_port) = None
  ∧ Relay.port_onMessage (H := working_network) (Some (sample_ws_send "ws_9"))
      sample_port
    = Relay.postMessage (Relay.error_message (Some "ws_9") "WebSocket is not open")
        sample_port.
Proof.
  split; [reflexivity |]. split; [reflexivity |].
  exact (proj1 (ws_send_guarded (H := working_network) (sample_ws_send "ws_9")
                  sample_port eq_refl)
           eq_refl).
Defined.

Lemma sample_port_keys_unique : keys_unique sample_port.
Proof.
  unfold keys_unique. simpl. apply NoDup_cons. split; [| apply NoDup_singleton].
  intros Hin. apply list_elem_of_singleton in Hin. discriminate.
Qed.

(** Ids stay unique when a socket is opened. *)
Lemma relay_table_keys_unique_witness :
  keys_unique sample_port
  ∧ keys_unique (Relay.port_onMessage (H := working_network) (Some sample_ws_open)
                   sample_port).
Proof.
  split; [exact sample_port_keys_unique |].
  exact (proj1 (proj1 (proj2 (relay_table_keys_unique (H := working_network)
                                sample_port))
                  sample_port_keys_unique)
           (Some sample_ws_open)).
Defined.

(** The close of one real socket leaves the other in the table. *)
Lemma native_close_cleans_up_witness :
  Some "ws_2" ≠ Some "ws_1"
  ∧ Relay.table_get (Some "ws_2")
      (Relay.sockets
         (Relay.socket_callback (H := failing_network) (Some "ws_1")
            (Relay.NativeClose 1000 "" true) sample_port))
    = Relay.table_get (Some "ws_2") (Relay.sockets sample_port).
Proof.
  assert (Hne : Some "ws_2" ≠ Some "ws_1") by discriminate.
  split; [exact Hne |].
  exact (proj1 (proj2 (proj2 (native_close_cleans_up (H := failing_network)
                                (Some "ws_1") 1000 "" true sample_port)))
           (Some "ws_2") Hne).
Defined.

(** The wire form of a view with an offset is stable from the first pass on. *)
Lemma serialized_form_is_stable_witness :
  Bridge.serializeBody (H := sample_platform)
    (Relay.deserializeBody
       (Bridge.serializeBody (H := sample_platform)
          (Some (BodyView {| buffer := [x01; x02; x03; x04];
                             byteOffset := 1; byteLength := 2 |}))))
  = Bridge.serializeBody (H := sample_platform)
      (Some (BodyView {| buffer := [x01; x02; x03; x04];
                         byteOffset := 1; byteLength := 2 |})).
Proof.
  refine (serialized_form_is_stable (H := sample_platform) _ _).
  intros p Hp. discriminate.
Defined.

(** A POST with credentials and a blob reaches the fetch as such. *)
Lemma request_options_survive_witness :
  accepted (BodyBlob {| blob_bytes := [x01; x02]; blob_type := "image/png" |})
  ∧ ∃ body',
      req_body (relayed_init
                  (Some (Bridge.serializeInit (H := sample_platform)
                           (Some sample_request_init))) None)
      = Some body'
      ∧ wire_image (H := sample_platform) body'
        = ImageBlob [x01; x02] "image/png".
Proof.
  assert (Hacc : accepted (BodyBlob {| blob_bytes := [x01; x02];
                                       blob_type := "image/png" |}))
    by exact I.
  split; [exact Hacc |].
  exact (proj1 (proj2 (proj2 (proj2 (request_options_survive (H := sample_platform)
                                       sample_request_init None))))
           _ eq_refl Hacc).
Defined.

(** A ws-send of the page goes to the port, connecting it first. *)
Lemma content_forwards_bridge_messages_witness :
  Content.onWindowMessage true
    (Some (posted_data (Bridge.PostWsSend "ws_1" (DataString "ping")))) false
  = (true,
     [Content.runtime_connect "pagespy-ws";
      Content.port_postMessage (sample_ws_send "ws_1")]).
Proof.
  refine (proj2 (proj2 (proj1 (proj2 (content_forwards_bridge_messages
            (Bridge.PostWsSend "ws_1" (DataString "ping")) false)) _))).
  intros requestId url init. discriminate.
Defined.

(** Three socket messages on a connected port connect nothing. *)
Lemma port_connected_once_witness :
  count_connects
    (forward_all [Bridge.PostWsOpen "ws_1" "wss://svc.local/ws" [];
                  Bridge.PostWsSend "ws_1" (DataString "ping");
                  Bridge.PostWsClose "ws_1" None None] true).2 = 0%nat.
Proof.
  exact (proj2 (proj1 (proj2 (port_connected_once
            [Bridge.PostWsOpen "ws_1" "wss://svc.local/ws" [];
             Bridge.PostWsSend "ws_1" (DataString "ping");
             Bridge.PostWsClose "ws_1" None None] true))
          eq_refl)).
Defined.



(** The real socket of the page's open socket closes. *)
Lemma remote_close_reaches_page_witness :
  sockets_ok sample_page_socket
  ∧ ∃ m,
      last (Relay.port_posted
              (Relay.socket_callback (H := working_network) (Some "ws_1")
                 (Relay.NativeClose 1000 "bye" true) sample_port)) = Some m
      ∧ Bridge.socketMap
          (Bridge.handleBridgeMessage (Some (Content.port_onMessage m))
             sample_page_socket) !! "ws_1" = None.
Proof.
  split; [exact sample_page_socket_ok |].
  destruct (remote_close_reaches_page (H := working_network) "ws_1" 0%nat 1000 "bye"
              true sample_port sample_page_socket sample_page_socket_ok eq_refl)
    as (m & Hlast & _ & Hgone & _).
  exists m. split; [exact Hlast | exact Hgone].
Defined.

(** A text message of the real socket reaches the page's open socket. *)
Lemma remote_message_reaches_page_witness :
  ∃ m,
    Relay.port_posted
      (Relay.socket_callback (H := working_network) (Some "ws_1")
         (Relay.NativeMessage (DataString "hello")) sample_port)
    = Relay.port_posted sample_port ++ [m]
    ∧ last (Bridge.observed
              (Bridge.handleBridgeMessage (Some (Content.port_onMessage m))
                 sample_page_socket))
      = Some (Bridge.EventDispatched "ws_1" (Bridge.EventMessage (DataString "hello"))).
Proof.
  destruct (remote_message_reaches_page (H := working_network) "ws_1" 0%nat
              (sample_socket Bridge.OPEN) (DataString "hello") sample_port
              sample_page_socket eq_refl eq_refl eq_refl)
    as (m & Hposted & _ & Hlast & _).
  exists m. split; [exact Hposted | exact Hlast].
Defined.


(** Installing three times on a fresh window wraps the native fetch once. *)
Lemma installBridge_idempotent_witness :
  Install.__PAGE_SPY_BRIDGE__ sample_window = false
  ∧ Install.window_fetch (Nat.iter 3 Install.installBridge sample_window)
    = Install.Proxy Install.Native.
Proof.
  split; [reflexivity |].
  exact (proj1 (proj1 (proj2 (proj2 (installBridge_idempotent sample_window 2)))
                  eq_refl)).
Defined.
